(** * Round timer, production queue and evaluation funnel

    A shallow embedding of the round/timer and evaluation logic of the
    pizza-production exercise: the React hooks [useAvaliacaoTimeout],
    [usePizzasParaAvaliacao] (evaluator and team-scoped variants), the
    component [FilaProducao] and the administration screens.

    Conventions of the embedding.
    - Instants ([Date.now()], [new Date(s).getTime()]) are integers, in
      milliseconds; durations kept in the store are integers, in seconds.
    - A table of the store is a list of rows, in insertion order.
    - A nullable column is an [option].
    - Asynchronous calls are run to completion, one after the other; a
      failure reported by the store is an explicit [bool] argument of the
      operation that may observe it. *)

From stdpp Require Import base list strings gmap sorting pretty.

Open Scope Z_scope.

(** ** Data model *)

Inductive StatusRodada := Aguardando | Ativa | Pausada | Finalizada.
Inductive StatusPizza := EmProducao | Pronta | Avaliada.
Inductive Resultado := Aprovada | Reprovada.

#[global] Instance StatusRodada_eq_dec : EqDecision StatusRodada.
Proof. solve_decision. Defined.
#[global] Instance StatusPizza_eq_dec : EqDecision StatusPizza.
Proof. solve_decision. Defined.
#[global] Instance Resultado_eq_dec : EqDecision Resultado.
Proof. solve_decision. Defined.

Module Rodada.
Record t := mk {
  id : string;
  numero : Z;
  status : StatusRodada;
  tempo_limite : Z;            (* seconds *)
  iniciou_em : option Z;       (* instant, ms *)
  finalizou_em : option Z      (* instant, ms *)
}.
End Rodada.

Module Equipe.
Record t := mk {
  id : string;
  nome : string
}.
End Equipe.

Module Sabor.
Record t := mk {
  id : string;
  nome : string
}.
End Sabor.

Module Pizza.
Record t := mk {
  id : string;
  equipe_id : string;
  rodada_id : string;
  sabor_id : option string;
  status : StatusPizza;
  resultado : option Resultado;
  justificativa_reprovacao : option string;
  avaliado_por : option string;
  created_at : Z;              (* instant, ms *)
  updated_at : Z               (* instant, ms *)
}.
End Pizza.

(** The shared store: the four tables the hooks read and write. *)
Module Banco.
Record t := mk {
  pizzas : list Pizza.t;
  equipes : list Equipe.t;
  rodadas : list Rodada.t;
  sabores_pizza : list Sabor.t
}.

Definition com_pizzas (ps : list Pizza.t) (db : t) : t :=
  mk ps (equipes db) (rodadas db) (sabores_pizza db).

Definition com_rodadas (rs : list Rodada.t) (db : t) : t :=
  mk (pizzas db) (equipes db) rs (sabores_pizza db).

(** Rows found by primary key. *)
Definition equipe_de (db : t) (id : string) : option Equipe.t :=
  snd <$> list_find (λ e, Equipe.id e = id) (equipes db).

Definition sabor_de (db : t) (id : string) : option Sabor.t :=
  snd <$> list_find (λ s, Sabor.id s = id) (sabores_pizza db).

Definition rodada_de (db : t) (id : string) : option Rodada.t :=
  snd <$> list_find (λ r, Rodada.id r = id) (rodadas db).

Definition pizza_de (db : t) (id : string) : option Pizza.t :=
  snd <$> list_find (λ p, Pizza.id p = id) (pizzas db).

(** Foreign key of [pizzas.equipe_id]: every item refers to a team. *)
Definition equipes_integras (db : t) : Prop :=
  ∀ p, p ∈ pizzas db → is_Some (equipe_de db (Pizza.equipe_id p)).

(** Foreign key of [pizzas.rodada_id]: every item refers to a round. *)
Definition rodadas_integras (db : t) : Prop :=
  ∀ p, p ∈ pizzas db → is_Some (rodada_de db (Pizza.rodada_id p)).
End Banco.

(** Notifications a hook sends to the user and to the other screens
    ([toast.*] and [window.dispatchEvent]). *)
Inductive Evento :=
  | ToastWarning (quantidade : nat)
  | ToastSuccess (mensagem : string)
  | ToastError (mensagem : string)
  | ToastLimiteAtingido (limite : Z)
  | ToastPizzaEnviada (pizzasRestantes : Z)
  | ToastMinutos (adicionados : bool) (minutos : Z)
  | PizzasReprovadasAutomaticamente (rodadaId : string) (quantidadeReprovadas : nat)
  | PizzaAvaliada (pizzaId : string) (resultado : Resultado)
  | PizzaSaborSelecionado (equipeId rodadaId saborId : string)
  | RodadaTempoAlterado (rodadaId : string) (novoTempoLimite alteracao : Z)
  | GlobalDataChanged (table action : string).

(** ** Clock reconciliation *)

Module Relogio.

(** [Math.ceil(a / b)] for an integer [a] and a positive integer [b]. *)
Definition ceil_div (a b : Z) : Z := - ((- a) / b).

Definition TEMPO_ADICIONAL_SEGUNDOS : Z := 60.

(** [calcularTempoRestante] of [useAvaliacaoTimeout] (the same body
    stands in the evaluator's [usePizzasParaAvaliacao]): the seconds left
    of the additional evaluation time after the round finished. *)
Definition calcularTempoRestante
    (rodadaAtual : option Rodada.t) (agora : Z) : option Z :=
  match rodadaAtual with
  | None => None
  | Some r =>
    if bool_decide (Rodada.status r ≠ Finalizada) then None
    else match Rodada.finalizou_em r with
         | None => None
         | Some fimRodada =>
           let fimTempoAdicional := fimRodada + TEMPO_ADICIONAL_SEGUNDOS * 1000 in
           let tempoRestanteMs := fimTempoAdicional - agora in
           if bool_decide (tempoRestanteMs ≤ 0) then Some 0
           else Some (ceil_div tempoRestanteMs 1000)
         end
  end.

(** [updateTimer] of [EquipeScreen]: the value handed to
    [setTempoRestante] and the returned flag (keep ticking). *)
Definition updateTimer (inicioRodada duracaoRodada agora : Z) : Z * bool :=
  let tempoDecorrido := agora - inicioRodada in
  let resto := Z.max 0 (duracaoRodada - tempoDecorrido) in
  (ceil_div resto 1000, bool_decide (0 < resto)).

(** The timer effect of [EquipeScreen] at its first tick: nothing is
    computed unless the round is active and has a start instant. *)
Definition timerRodada (rodadaAtual : option Rodada.t) (agora : Z)
    : option (Z * bool) :=
  match rodadaAtual with
  | None => None
  | Some r =>
    if bool_decide (Rodada.status r ≠ Ativa) then None
    else match Rodada.iniciou_em r with
         | None => None
         | Some inicioRodada =>
           let duracaoRodada := Rodada.tempo_limite r * 1000 in
           Some (updateTimer inicioRodada duracaoRodada agora)
         end
  end.

(** The contract of the reconciler, as the specification words it. *)
Definition remaining_spec (anchor limit agora : Z) : Z :=
  Z.max 0 (ceil_div (anchor + limit * 1000 - agora) 1000).

End Relogio.

(** ** Administration screen: extending the round *)

Module Producao.

(** The store's [update({tempo_limite}).eq('id', id)] on [rodadas]. *)
Definition update_tempo_limite (id : string) (novo : Z)
    (rs : list Rodada.t) : list Rodada.t :=
  (λ r, if bool_decide (Rodada.id r = id)
        then Rodada.mk (Rodada.id r) (Rodada.numero r) (Rodada.status r)
                       novo (Rodada.iniciou_em r) (Rodada.finalizou_em r)
        else r) <$> rs.

(** [adicionarMinutos] of [ProducaoScreen] (both revisions have the same
    body). [erro] is the error the store reports for the update. *)
Definition adicionarMinutos (rodadaAtual : option Rodada.t) (erro : bool)
    (minutos : Z) (db : Banco.t) : Banco.t * list Evento :=
  match rodadaAtual with
  | None => (db, [])
  | Some r =>
    let novoTempoLimite := Rodada.tempo_limite r + minutos * 60 in
    if erro then (db, [ToastError "Erro ao ajustar tempo da rodada"])
    else (Banco.com_rodadas
            (update_tempo_limite (Rodada.id r) novoTempoLimite (Banco.rodadas db)) db,
          [RodadaTempoAlterado (Rodada.id r) novoTempoLimite minutos;
           ToastMinutos (bool_decide (0 < minutos)) (Z.abs minutos)])
  end.

(** Seconds of the round already consumed at [agora]: the timer's
    [tempoDecorrido], in whole seconds. *)
Definition decorrido (r : Rodada.t) (agora : Z) : Z :=
  match Rodada.iniciou_em r with
  | Some inicio => (agora - inicio) / 1000
  | None => 0
  end.

(** The time limit a round has in the store. *)
Definition tempo_limite_de (id : string) (db : Banco.t) : option Z :=
  Rodada.tempo_limite <$> Banco.rodada_de db id.

End Producao.

(** ** Auto-timeout rejector: [useAvaliacaoTimeout] *)

Module Rejeicao.

Definition JUSTIFICATIVA_TIMEOUT : string :=
  "Tempo de avaliação esgotado - reprovação automática".
Definition AVALIADOR_TIMEOUT : string := "Sistema - Timeout".

(** The predicate shared by the select and by the bulk update:
    [.eq('rodada_id', rodadaId).eq('status', 'pronta').is('resultado', null)]. *)
Definition pendenteDaRodada (rodadaId : string) (p : Pizza.t) : Prop :=
  Pizza.rodada_id p = rodadaId
  ∧ Pizza.status p = Pronta
  ∧ Pizza.resultado p = None.

#[global] Instance pendenteDaRodada_dec rodadaId p :
  Decision (pendenteDaRodada rodadaId p).
Proof. unfold pendenteDaRodada. apply _. Defined.

(** The columns the bulk update writes. *)
Definition reprovar_linha (agora : Z) (p : Pizza.t) : Pizza.t :=
  Pizza.mk (Pizza.id p) (Pizza.equipe_id p) (Pizza.rodada_id p)
           (Pizza.sabor_id p)
           Avaliada (Some Reprovada)
           (Some JUSTIFICATIVA_TIMEOUT) (Some AVALIADOR_TIMEOUT)
           (Pizza.created_at p) agora.

(** The bulk update on one row: rows the predicate matches are written,
    the others are kept. *)
Definition reprovar_se_pendente (rodadaId : string) (agora : Z)
    (p : Pizza.t) : Pizza.t :=
  if decide (pendenteDaRodada rodadaId p) then reprovar_linha agora p else p.

(** [reprovarPizzasNaoAvaliadas]. [selectError] and [updateError] are the
    errors the store reports for the two requests; every early [return]
    leaves the store as it is and notifies nobody. *)
Definition reprovarPizzasNaoAvaliadas (selectError updateError : bool)
    (agora : Z) (rodadaId : string) (db : Banco.t)
    : Banco.t * list Evento :=
  if selectError then (db, [])
  else
    let pizzasPendentes := filter (pendenteDaRodada rodadaId) (Banco.pizzas db) in
    if bool_decide (length pizzasPendentes = 0%nat) then (db, [])
    else if updateError then (db, [])
    else
      (Banco.com_pizzas
         (reprovar_se_pendente rodadaId agora <$> Banco.pizzas db) db,
       [ ToastWarning (length pizzasPendentes);
         PizzasReprovadasAutomaticamente rodadaId (length pizzasPendentes);
         GlobalDataChanged "pizzas" "auto-reprovacao" ]).

(** State of one mounted [useAvaliacaoTimeout]. The armed interval is
    identified with the round its callback closes over. *)
Record Estado := mkEstado {
  tempoRestante : option Z;
  estaNoTempoAdicional : bool;
  intervalRef : option Rodada.t;
  tempoAdicionalProcessadoRef : gset string
}.

Definition inicial : Estado := mkEstado None false None ∅.

(** The main effect, run when the round's id, status or [finalizou_em]
    changes. *)
Definition efeitoPrincipal (rodadaAtual : option Rodada.t)
    (selectError updateError : bool) (agora : Z)
    (st : Estado) (db : Banco.t) : Estado * Banco.t * list Evento :=
  let processado := tempoAdicionalProcessadoRef st in
  (* the previous interval is cleared first *)
  match rodadaAtual with
  | None => (mkEstado None false None processado, db, [])
  | Some r =>
    if bool_decide (Rodada.status r ≠ Finalizada)
    then (mkEstado None false None processado, db, [])
    else
      let rodadaId := Rodada.id r in
      if bool_decide (rodadaId ∈ processado)
      then (mkEstado (Some 0) false None processado, db, [])
      else
        match Relogio.calcularTempoRestante rodadaAtual agora with
        | None => (mkEstado (tempoRestante st) true None processado, db, [])
        | Some tempoInicial =>
          if bool_decide (tempoInicial ≤ 0)
          then
            let '(db', ev) :=
              reprovarPizzasNaoAvaliadas selectError updateError agora rodadaId db in
            (mkEstado (Some 0) false None ({[rodadaId]} ∪ processado), db', ev)
          else
            (mkEstado (Some tempoInicial) true (Some r) processado, db, [])
        end
  end.

(** One run of the interval callback armed by [efeitoPrincipal]. *)
Definition tick (selectError updateError : bool) (agora : Z)
    (st : Estado) (db : Banco.t) : Estado * Banco.t * list Evento :=
  match intervalRef st with
  | None => (st, db, [])
  | Some r =>
    let rodadaId := Rodada.id r in
    let esgotado :=
      match Relogio.calcularTempoRestante (Some r) agora with
      | None => true
      | Some novoTempo => bool_decide (novoTempo ≤ 0)
      end in
    if esgotado
    then
      let '(db', ev) :=
        reprovarPizzasNaoAvaliadas selectError updateError agora rodadaId db in
      (mkEstado (Some 0) false None
                ({[rodadaId]} ∪ tempoAdicionalProcessadoRef st), db', ev)
    else
      (mkEstado (Relogio.calcularTempoRestante (Some r) agora)
                (estaNoTempoAdicional st) (intervalRef st)
                (tempoAdicionalProcessadoRef st), db, [])
  end.

(** What can happen to a mounted hook: its effect runs again for a round,
    or its interval fires. *)
Inductive Acao :=
  | Efeito (rodadaAtual : Rodada.t) (selectError updateError : bool) (agora : Z)
  | Tick (selectError updateError : bool) (agora : Z).

Definition passo (a : Acao) (st : Estado) (db : Banco.t)
    : Estado * Banco.t * list Evento :=
  match a with
  | Efeito r se ue agora => efeitoPrincipal (Some r) se ue agora st db
  | Tick se ue agora => tick se ue agora st db
  end.

Fixpoint executar (acoes : list Acao) (st : Estado) (db : Banco.t)
    : Estado * Banco.t * list Evento :=
  match acoes with
  | [] => (st, db, [])
  | a :: resto =>
    let '(st1, db1, ev1) := passo a st db in
    let '(st2, db2, ev2) := executar resto st1 db1 in
    (st2, db2, ev1 ++ ev2)
  end.

Definition sobre_rodada (rodadaId : string) (a : Acao) : Prop :=
  match a with
  | Efeito r _ _ _ => Rodada.id r = rodadaId
  | Tick _ _ _ => True
  end.

End Rejeicao.


(** ** Realtime client and change feed *)

Inductive StatusCanal := SUBSCRIBED | TIMED_OUT | CLOSED | CHANNEL_ERROR.

(** A [postgres_changes] event on table [pizzas]. *)
Inductive Payload :=
  | INSERT (new : Pizza.t)
  | UPDATE (new : Pizza.t)
  | DELETE (old : Pizza.t).

Module Canal.
Record t := mk {
  nome : nat;            (* the unique suffix of the channel name *)
  inscrito : bool        (* [subscribe] was called on it *)
}.
End Canal.

(** The realtime client of one process: the channels it has registered and
    not removed. Channel names are made unique by a counter. *)
Module Cliente.
Record t := mk {
  canais : list Canal.t;
  proximo : nat
}.

Definition inicial : t := mk [] 0%nat.

(** [supabase.channel(name).on(...)], followed by [subscribe] when
    [inscrever] holds. *)
Definition channel (inscrever : bool) (c : t) : nat * t :=
  (proximo c, mk (canais c ++ [Canal.mk (proximo c) inscrever]) (S (proximo c))).

Definition removeChannel (n : nat) (c : t) : t :=
  mk (filter (λ k, Canal.nome k ≠ n) (canais c)) (proximo c).

(** The channels whose handler runs when the feed reports a change. *)
Definition ouvintes (c : t) : list nat :=
  Canal.nome <$> filter (λ k, Canal.inscrito k = true) (canais c).
End Cliente.

(** ** Evaluator screen: [usePizzasParaAvaliacao] *)

(** A row of [select('*, equipes!inner(nome, cor_tema, emblema),
    sabores_pizza(nome)')]. *)
Module Linha.
Record t := mk {
  pizza : Pizza.t;
  equipes : Equipe.t;
  sabores_pizza : option Sabor.t
}.
End Linha.

Module Avaliacao.

Definition AVALIADOR_MANUAL : string := "Avaliador".

(** [.eq('status', 'pronta').is('resultado', null)] *)
Definition prontaSemResultado (p : Pizza.t) : Prop :=
  Pizza.status p = Pronta ∧ Pizza.resultado p = None.

#[global] Instance prontaSemResultado_dec p : Decision (prontaSemResultado p).
Proof. unfold prontaSemResultado. apply _. Defined.

(** The joins of the select: the team is an inner join (a row without
    its team is dropped), the flavour a left join. *)
Definition juntar (db : Banco.t) (p : Pizza.t) : option Linha.t :=
  e ← Banco.equipe_de db (Pizza.equipe_id p);
  Some (Linha.mk p e (Pizza.sabor_id p ≫= Banco.sabor_de db)).

(** [.order('created_at', { ascending: true })] *)
Definition maisAntigaPrimeiro (a b : Linha.t) : Prop :=
  Pizza.created_at (Linha.pizza a) ≤ Pizza.created_at (Linha.pizza b).

#[global] Instance maisAntigaPrimeiro_dec a b : Decision (maisAntigaPrimeiro a b).
Proof. unfold maisAntigaPrimeiro. apply _. Defined.

(** The query of [fetchPizzasParaAvaliacao]. *)
Definition selectPizzasParaAvaliacao (db : Banco.t) : list Linha.t :=
  merge_sort maisAntigaPrimeiro
    (omap (juntar db) (filter prontaSemResultado (Banco.pizzas db))).

(** State of one mounted hook. *)
Record Estado := mkEstado {
  pizzas : list Linha.t;
  loading : bool;
  error : option string;
  tempoRestante : option Z;
  channelRef : option nat;
  isSubscribedRef : bool;
  intervalRef : option Rodada.t
}.

Definition inicial : Estado := mkEstado [] true None None None false None.

Definition com_pizzas (ps : list Linha.t) (st : Estado) : Estado :=
  mkEstado ps (loading st) (error st) (tempoRestante st)
           (channelRef st) (isSubscribedRef st) (intervalRef st).

Definition com_error (e : option string) (st : Estado) : Estado :=
  mkEstado (pizzas st) (loading st) e (tempoRestante st)
           (channelRef st) (isSubscribedRef st) (intervalRef st).

Definition com_loading (b : bool) (st : Estado) : Estado :=
  mkEstado (pizzas st) b (error st) (tempoRestante st)
           (channelRef st) (isSubscribedRef st) (intervalRef st).

Definition com_canal (c : option nat) (b : bool) (st : Estado) : Estado :=
  mkEstado (pizzas st) (loading st) (error st) (tempoRestante st)
           c b (intervalRef st).

Definition com_timer (t : option Z) (i : option Rodada.t) (st : Estado) : Estado :=
  mkEstado (pizzas st) (loading st) (error st) t
           (channelRef st) (isSubscribedRef st) i.

Definition fetchPizzasParaAvaliacao (erro : bool) (st : Estado) (db : Banco.t)
    : Estado :=
  if erro
  then com_loading false (com_error (Some "Erro ao carregar pizzas para avaliação") st)
  else com_loading false (com_pizzas (selectPizzasParaAvaliacao db) st).

(** The columns [avaliarPizza] sends. A [justificativa] left out is
    [undefined]: the key is dropped from the request body and the column
    keeps its value. *)
Definition avaliar_linha (agora : Z) (resultado : Resultado)
    (justificativa : option string) (p : Pizza.t) : Pizza.t :=
  Pizza.mk (Pizza.id p) (Pizza.equipe_id p) (Pizza.rodada_id p)
           (Pizza.sabor_id p)
           Avaliada (Some resultado)
           (match resultado with
            | Reprovada =>
              match justificativa with
              | Some j => Some j
              | None => Pizza.justificativa_reprovacao p
              end
            | Aprovada => None
            end)
           (Some AVALIADOR_MANUAL)
           (Pizza.created_at p) agora.

(** [avaliarPizza]: [inl] when it returns, [inr] with the error it
    throws. The update is [.update({...}).eq('id', pizzaId)]. *)
Definition avaliarPizza (erro : bool) (agora : Z) (pizzaId : string)
    (resultado : Resultado) (justificativa : option string)
    (st : Estado) (db : Banco.t)
    : (Estado * Banco.t * list Evento) + (Estado * string) :=
  if erro
  then inr (com_error (Some "Erro ao avaliar pizza") st, "Erro ao avaliar pizza")
  else
    inl (com_pizzas (filter (λ l, Pizza.id (Linha.pizza l) ≠ pizzaId) (pizzas st)) st,
         Banco.com_pizzas
           ((λ p, if decide (Pizza.id p = pizzaId)
                  then avaliar_linha agora resultado justificativa p
                  else p) <$> Banco.pizzas db)
           db,
         [ PizzaAvaliada pizzaId resultado;
           GlobalDataChanged "pizzas" "avaliada";
           ToastSuccess (match resultado with
                         | Aprovada => "✅ Pizza aprovada!"
                         | Reprovada => "❌ Pizza reprovada!"
                         end) ]).

(** The timer of the additional evaluation time (second effect). *)
Definition efeitoTimer (rodadaAtual : option Rodada.t) (agora : Z)
    (st : Estado) : Estado :=
  match rodadaAtual with
  | None => com_timer None None st
  | Some r =>
    if bool_decide (Rodada.status r ≠ Finalizada) then com_timer None None st
    else match Rodada.finalizou_em r with
         | None => com_timer None None st
         | Some _ =>
           match Relogio.calcularTempoRestante rodadaAtual agora with
           | None => com_timer (Some 0) None st
           | Some tempoInicial =>
             if bool_decide (tempoInicial ≤ 0) then com_timer (Some 0) None st
             else com_timer (Some tempoInicial) (Some r) st
           end
         end
  end.

(** [cleanupChannel]: the channel is removed only when the reference is
    set and the subscription is flagged as established. *)
Definition cleanupChannel (st : Estado) (cl : Cliente.t) : Estado * Cliente.t :=
  match channelRef st with
  | Some c =>
    if isSubscribedRef st
    then (com_canal None false st, Cliente.removeChannel c cl)
    else (st, cl)
  | None => (st, cl)
  end.

(** The realtime effect, run once at mount: fetch, clean up, create the
    channel, keep it in [channelRef], subscribe unless flagged. *)
Definition efeitoRealtime (erroFetch : bool) (st : Estado) (cl : Cliente.t)
    (db : Banco.t) : Estado * Cliente.t :=
  let st1 := fetchPizzasParaAvaliacao erroFetch st db in
  let '(st2, cl2) := cleanupChannel st1 cl in
  let '(c, cl3) := Cliente.channel (negb (isSubscribedRef st2)) cl2 in
  (com_canal (Some c) (isSubscribedRef st2) st2, cl3).

(** The callback of [subscribe], for a channel still registered. *)
Definition aoStatus (c : nat) (s : StatusCanal) (st : Estado) (cl : Cliente.t)
    : Estado :=
  if bool_decide (c ∈ Cliente.ouvintes cl)
  then match s with
       | SUBSCRIBED => com_canal (channelRef st) true st
       | CLOSED | CHANNEL_ERROR => com_canal (channelRef st) false st
       | TIMED_OUT => st
       end
  else st.

Definition existe (id : string) (ps : list Linha.t) : bool :=
  bool_decide (Exists (λ l, Pizza.id (Linha.pizza l) = id) ps).

Definition remover (id : string) (ps : list Linha.t) : list Linha.t :=
  filter (λ l, Pizza.id (Linha.pizza l) ≠ id) ps.

(** [.eq('id', id).single()] with the joins of the listing. *)
Definition pizzaCompleta (db : Banco.t) (id : string) : option Linha.t :=
  Banco.pizza_de db id ≫= juntar db.

(** The handler registered on the channel. *)
Definition aoPayload (payload : Payload) (st : Estado) (db : Banco.t) : Estado :=
  match payload with
  | INSERT novaPizza =>
    if decide (prontaSemResultado novaPizza)
    then match pizzaCompleta db (Pizza.id novaPizza) with
         | Some completa =>
           if existe (Pizza.id (Linha.pizza completa)) (pizzas st) then st
           else com_pizzas (completa :: pizzas st) st
         | None => st
         end
    else st
  | UPDATE pizzaAtualizada =>
    if decide (prontaSemResultado pizzaAtualizada)
    then match pizzaCompleta db (Pizza.id pizzaAtualizada) with
         | Some completa =>
           if existe (Pizza.id pizzaAtualizada) (pizzas st)
           then com_pizzas
                  ((λ l, if decide (Pizza.id (Linha.pizza l) = Pizza.id pizzaAtualizada)
                         then completa else l) <$> pizzas st) st
           else com_pizzas (completa :: pizzas st) st
         | None => st
         end
    else if bool_decide (Pizza.status pizzaAtualizada = Avaliada
                         ∨ Pizza.resultado pizzaAtualizada ≠ None)
    then com_pizzas (remover (Pizza.id pizzaAtualizada) (pizzas st)) st
    else st
  | DELETE pizzaRemovida =>
    com_pizzas (remover (Pizza.id pizzaRemovida) (pizzas st)) st
  end.

(** A change reported by the feed runs the handler of every channel of
    the client that is still listening. *)
Definition entregar (payload : Payload) (st : Estado) (cl : Cliente.t)
    (db : Banco.t) : Estado :=
  foldr (λ _ acc, aoPayload payload acc db) st (Cliente.ouvintes cl).

(** Unmount: the cleanups of the timer effect, of the realtime effect and
    of the last effect, in that order. *)
Definition desmontar (st : Estado) (cl : Cliente.t) : Estado * Cliente.t :=
  let st1 := com_timer (tempoRestante st) None st in
  let '(st2, cl2) := cleanupChannel st1 cl in
  cleanupChannel st2 cl2.

End Avaliacao.


(** ** Team screen: [FilaProducao] *)

Module Fila.

(** Modelled from the spec: the hook [usePizzas(equipeId, rodadaId)] is
    not among the sources; its list is the items created by the team in
    the round, whatever their status (the component shows items in
    production, ready, approved and rejected from it). No round, no
    filter on the round. *)
Definition daEquipeNaRodada (equipeId : string) (rodadaId : option string)
    (p : Pizza.t) : Prop :=
  Pizza.equipe_id p = equipeId
  ∧ match rodadaId with
    | Some rid => Pizza.rodada_id p = rid
    | None => True
    end.

#[global] Instance daEquipeNaRodada_dec equipeId rodadaId p :
  Decision (daEquipeNaRodada equipeId rodadaId p).
Proof. unfold daEquipeNaRodada. destruct rodadaId; apply _. Defined.

Definition usePizzas (equipeId : string) (rodadaId : option string)
    (db : Banco.t) : list Pizza.t :=
  filter (daEquipeNaRodada equipeId rodadaId) (Banco.pizzas db).

(** Modelled from the spec: [marcarPizzaPronta] of the same hook is not
    among the sources; it creates the item in ready status, with no
    result. [novoId] is the key the store gives the row. *)
Definition marcarPizzaPronta (novoId : string) (agora : Z)
    (equipeId rodadaId saborId : string) (db : Banco.t) : Banco.t :=
  Banco.com_pizzas
    (Banco.pizzas db
     ++ [Pizza.mk novoId equipeId rodadaId (Some saborId)
                  Pronta None None None agora agora])
    db.

Definition verificarLimitePizzas (pizzas : list Pizza.t)
    (limitePizzasRodada : Z) : bool :=
  let pizzasEnviadas := Z.of_nat (length pizzas) in
  bool_decide (limitePizzasRodada ≤ pizzasEnviadas).

(** [isActive] and [timeRemaining] are what [useSynchronizedTimer]
    reports for the round. *)
Definition podeEnviarPizza (rodadaAtual : option Rodada.t)
    (isActive : bool) (timeRemaining : Z) : bool :=
  match rodadaAtual with
  | None => false
  | Some r =>
    if bool_decide (Rodada.status r ≠ Ativa) then false
    else if negb isActive || bool_decide (timeRemaining ≤ 0) then false
    else true
  end.

(** How [handleEnviarPizza] ends. [TempoEsgotado] is the refusal the
    specification calls RoundNotAcceptingError, [LimiteAtingido] the one
    it calls QuotaExceededError. *)
Inductive Desfecho :=
  | SemRodada
  | SaborNaoSelecionado
  | TempoEsgotado
  | LimiteAtingido
  | Enviada
  | ErroAoEnviar.

(** What the component holds when the button is pressed. *)
Record Componente := mkComponente {
  equipeId : string;
  rodadaAtual : option Rodada.t;
  pizzas : list Pizza.t;
  saborSelecionado : string;
  limitePizzasRodada : Z;
  isActive : bool;
  timeRemaining : Z
}.

(** [erroEnvio]: [marcarPizzaPronta] throws. *)
Definition handleEnviarPizza (c : Componente) (erroEnvio : bool)
    (novoId : string) (agora : Z) (db : Banco.t)
    : Desfecho * Banco.t * list Evento :=
  match rodadaAtual c with
  | None => (SemRodada, db, [])
  | Some r =>
    if bool_decide (saborSelecionado c = "")
    then (SaborNaoSelecionado, db,
          [ToastError "Por favor, selecione o sabor da pizza antes de enviar!"])
    else if negb (podeEnviarPizza (rodadaAtual c) (isActive c) (timeRemaining c))
    then (TempoEsgotado, db,
          [ToastError "⏰ Tempo esgotado! Não é possível enviar pizzas. Aguarde a próxima rodada."])
    else if verificarLimitePizzas (pizzas c) (limitePizzasRodada c)
    then (LimiteAtingido, db, [ToastLimiteAtingido (limitePizzasRodada c)])
    else if negb (podeEnviarPizza (rodadaAtual c) (isActive c) (timeRemaining c))
    then (TempoEsgotado, db,
          [ToastError "⏰ Tempo esgotado durante o envio! Aguarde a próxima rodada."])
    else
      let selecionado :=
        PizzaSaborSelecionado (equipeId c) (Rodada.id r) (saborSelecionado c) in
      if erroEnvio
      then (ErroAoEnviar, db,
            [selecionado; ToastError "Erro ao enviar pizza. Tente novamente."])
      else
        let pizzasRestantes :=
          limitePizzasRodada c - (Z.of_nat (length (pizzas c)) + 1) in
        (Enviada,
         marcarPizzaPronta novoId agora (equipeId c) (Rodada.id r)
                           (saborSelecionado c) db,
         [selecionado;
          if bool_decide (0 < pizzasRestantes)
          then ToastPizzaEnviada pizzasRestantes
          else ToastSuccess "🍕 Última pizza da rodada enviada com sucesso!"])
  end.

(** The component of a team as the store stands: its list is the hook's. *)
Definition componente (equipeId : string) (r : Rodada.t) (sabor : string)
    (limite : Z) (isActive : bool) (timeRemaining : Z) (db : Banco.t)
    : Componente :=
  mkComponente equipeId (Some r) (usePizzas equipeId (Some (Rodada.id r)) db)
               sabor limite isActive timeRemaining.

(** Submissions one after the other, each with the key and the instant of
    its row, the list being fetched again in between. *)
Fixpoint enviarVarias (equipeId : string) (r : Rodada.t) (sabor : string)
    (limite : Z) (isActive : bool) (timeRemaining : Z)
    (envios : list (string * Z)) (db : Banco.t) : list Desfecho * Banco.t :=
  match envios with
  | [] => ([], db)
  | (novoId, agora) :: resto =>
    let '(d, db1, _) :=
      handleEnviarPizza
        (componente equipeId r sabor limite isActive timeRemaining db)
        false novoId agora db in
    let '(ds, db2) :=
      enviarVarias equipeId r sabor limite isActive timeRemaining resto db1 in
    (d :: ds, db2)
  end.

End Fila.

(** ** Team-scoped evaluation list: [usePizzasParaAvaliacao(equipeId)] *)

Module PizzaWithRelations.
Record t := mk {
  pizza : Pizza.t;
  equipe : option string;                   (* { nome } *)
  rodada : option (Z * StatusRodada);       (* { numero, status } *)
  sabor : option string                     (* { nome } *)
}.
End PizzaWithRelations.

Module ChannelConfig.
Record t := mk {
  event : string;
  schema : string;
  table : string;
  filter : option string
}.
End ChannelConfig.

Module AvaliacaoEquipe.

(** The characters [trim] strips, among the code units up to U+00FF: tab,
    line feed, vertical tab, form feed, carriage return, space and
    no-break space. An identifier is a string of such code units. *)
Definition is_whitespace (a : Ascii.ascii) : bool :=
  let n := Ascii.nat_of_ascii a in
  bool_decide (n = 9 ∨ n = 10 ∨ n = 11 ∨ n = 12 ∨ n = 13 ∨ n = 32 ∨ n = 160)%nat.

Fixpoint trimStart (l : list Ascii.ascii) : list Ascii.ascii :=
  match l with
  | [] => []
  | a :: l' => if is_whitespace a then trimStart l' else l
  end.

Definition trim (s : string) : string :=
  String.string_of_list_ascii
    (reverse (trimStart (reverse (trimStart (String.list_ascii_of_string s))))).

(** [equipeId && equipeId.trim() !== ''] *)
Definition equipeInformada (equipeId : string) : bool :=
  bool_decide (equipeId ≠ "") && bool_decide (trim equipeId ≠ "").

(** The joins [equipes!inner(nome)], [rodadas!inner(numero, status)],
    [sabores_pizza(nome)], and the reshaping of each row. *)
Definition juntar (db : Banco.t) (p : Pizza.t) : option PizzaWithRelations.t :=
  e ← Banco.equipe_de db (Pizza.equipe_id p);
  r ← Banco.rodada_de db (Pizza.rodada_id p);
  Some (PizzaWithRelations.mk p
          (Some (Equipe.nome e))
          (Some (Rodada.numero r, Rodada.status r))
          (Sabor.nome <$> (Pizza.sabor_id p ≫= Banco.sabor_de db))).

Definition maisAntigaPrimeiro (a b : PizzaWithRelations.t) : Prop :=
  Pizza.created_at (PizzaWithRelations.pizza a)
  ≤ Pizza.created_at (PizzaWithRelations.pizza b).

#[global] Instance maisAntigaPrimeiro_dec a b : Decision (maisAntigaPrimeiro a b).
Proof. unfold maisAntigaPrimeiro. apply _. Defined.

(** The query of [fetchPizzasParaAvaliacao]. *)
Definition selectPizzasParaAvaliacao (equipeId : string) (db : Banco.t)
    : list PizzaWithRelations.t :=
  let query := filter Avaliacao.prontaSemResultado (Banco.pizzas db) in
  let query :=
    if equipeInformada equipeId
    then filter (λ p, Pizza.equipe_id p = equipeId) query
    else query in
  merge_sort maisAntigaPrimeiro (omap (juntar db) query).

Record Estado := mkEstado {
  pizzas : list PizzaWithRelations.t;
  loading : bool;
  error : option string
}.

Definition fetchPizzasParaAvaliacao (silent erro : bool) (equipeId : string)
    (st : Estado) (db : Banco.t) : Estado :=
  if erro
  then mkEstado (pizzas st) (if silent then loading st else false)
                (Some "Erro ao carregar pizzas")
  else mkEstado (selectPizzasParaAvaliacao equipeId db)
                (if silent then loading st else false) None.

(** The configuration handed to [.on('postgres_changes', ...)]. *)
Definition channelConfig (equipeId : string) : ChannelConfig.t :=
  ChannelConfig.mk "*" "public" "pizzas"
    (if equipeInformada equipeId
     then Some ("equipe_id=eq." +:+ equipeId)
     else None).

(** The feed reports a change of a row to the channel when the
    configuration has no filter or the row's team is the one the filter
    names. *)
Definition entrega (cfg : ChannelConfig.t) (linha : Pizza.t) : bool :=
  match ChannelConfig.filter cfg with
  | None => true
  | Some f => bool_decide (f = "equipe_id=eq." +:+ Pizza.equipe_id linha)
  end.

(** Empty or made of whitespace only. *)
Definition em_branco (s : string) : Prop :=
  Forall (λ a, is_whitespace a = true) (String.list_ascii_of_string s).

End AvaliacaoEquipe.

(** ** Schedules of the rejector hook *)

Module Prazo.

(** End of the additional evaluation time of a finished round. *)
Definition prazo (r : Rodada.t) : option Z :=
  if bool_decide (Rodada.status r = Finalizada)
  then (λ fim, fim + Relogio.TEMPO_ADICIONAL_SEGUNDOS * 1000) <$> Rodada.finalizou_em r
  else None.

(** An action that happens no later than [T], an effect run being for a
    round that is unfinished, or has no end instant, or whose additional
    time ends after [T]. *)
Definition prematura (T : Z) (a : Rejeicao.Acao) : Prop :=
  match a with
  | Rejeicao.Efeito r _ _ t =>
    t ≤ T ∧ ∀ fim, prazo r = Some fim → T < fim
  | Rejeicao.Tick _ _ t => t ≤ T
  end.

(** An action before the additional time of round [r] is over: a tick, or
    an effect run for that very round. *)
Definition antecipada (r : Rodada.t) (limite : Z) (a : Rejeicao.Acao) : Prop :=
  match a with
  | Rejeicao.Efeito r' _ _ t => r' = r ∧ t < limite
  | Rejeicao.Tick _ _ t => t < limite
  end.

(** Every armed interval belongs to a round whose additional time ends
    after [T]. *)
Definition armado_depois (T : Z) (st : Rejeicao.Estado) : Prop :=
  ∀ r, Rejeicao.intervalRef st = Some r → ∃ lim, prazo r = Some lim ∧ T < lim.

End Prazo.

(** ** Invariants of the table of items *)

Module Invariantes.

(** An item carries a result exactly when it is evaluated. *)
Definition coerente (p : Pizza.t) : Prop :=
  Pizza.resultado p ≠ None ↔ Pizza.status p = Avaliada.

(** The columns that identify an item and place it. *)
Definition identidade (p : Pizza.t)
    : string * string * string * option string * Z :=
  (Pizza.id p, Pizza.equipe_id p, Pizza.rodada_id p, Pizza.sabor_id p,
   Pizza.created_at p).

End Invariantes.

(** ** Keys of the evaluator's list *)

Module Lista.

(** The keys of the rows a hook lists, in the order of the list. *)
Definition chaves (ps : list Linha.t) : list string :=
  (λ l, Pizza.id (Linha.pizza l)) <$> ps.

(** An [UPDATE] or [DELETE] after which the row is out of evaluation. *)
Definition retira (payload : Payload) : option string :=
  match payload with
  | INSERT _ => None
  | UPDATE p =>
    if bool_decide (Pizza.status p = Avaliada ∨ Pizza.resultado p ≠ None)
    then Some (Pizza.id p) else None
  | DELETE p => Some (Pizza.id p)
  end.

End Lista.

(** ** Product list: [useProdutos] *)

Module Produtos.
Section Hook.

(** The row type of [produtos_loja], declared outside the sources. *)
Variable ProdutoLoja : Type.

(** What the store answers to the select: an error, or the rows (or
    null). *)
Inductive Resposta :=
  | Erro (mensagem : string)
  | Dados (data : option (list ProdutoLoja)).

Record Estado := mkEstado {
  produtos : list ProdutoLoja;
  loading : bool;
  error : option string;
  channelRef : option nat
}.

Definition inicial : Estado := mkEstado [] true None None.

Definition fetchProdutos (resposta : Resposta) (st : Estado) : Estado :=
  match resposta with
  | Erro mensagem => mkEstado (produtos st) false (Some mensagem) (channelRef st)
  | Dados data => mkEstado (default [] data) false (error st) (channelRef st)
  end.

(** The effect run at mount: fetch, then create and subscribe the channel
    unless one is already held. *)
Definition efeito (resposta : Resposta) (st : Estado) (cl : Cliente.t)
    : Estado * Cliente.t :=
  let st1 := fetchProdutos resposta st in
  match channelRef st1 with
  | Some _ => (st1, cl)
  | None =>
    let '(c, cl1) := Cliente.channel true cl in
    (mkEstado (produtos st1) (loading st1) (error st1) (Some c), cl1)
  end.

(** Its cleanup: the channel held is removed, whatever its state. *)
Definition limpeza (st : Estado) (cl : Cliente.t) : Estado * Cliente.t :=
  match channelRef st with
  | Some c =>
    (mkEstado (produtos st) (loading st) (error st) None, Cliente.removeChannel c cl)
  | None => (st, cl)
  end.

(** The handler of the channel: any change fetches again. *)
Definition aoMudar (resposta : Resposta) (st : Estado) (cl : Cliente.t) : Estado :=
  foldr (λ _ acc, fetchProdutos resposta acc) st (Cliente.ouvintes cl).

End Hook.
End Produtos.

(** ** Administration screen: counters *)

Module Painel.

Definition pizzasProntas (pizzas : list Pizza.t) : list Pizza.t :=
  filter (λ p, Pizza.status p = Pronta) pizzas.

Definition pizzasAvaliadas (pizzas : list Pizza.t) : list Pizza.t :=
  filter (λ p, Pizza.status p = Avaliada) pizzas.

Definition pizzasAprovadas (pizzas : list Pizza.t) : list Pizza.t :=
  filter (λ p, Pizza.resultado p = Some Aprovada) (pizzasAvaliadas pizzas).

Definition pizzasReprovadas (pizzas : list Pizza.t) : list Pizza.t :=
  filter (λ p, Pizza.resultado p = Some Reprovada) (pizzasAvaliadas pizzas).

(** A row of [estatisticasPorEquipe]. *)
Record Estatistica := mkEstatistica {
  equipe : Equipe.t;
  total : nat;
  prontas : nat;
  aprovadas : nat;
  reprovadas : nat
}.

Definition estatisticasPorEquipe (equipes : list Equipe.t)
    (pizzas : list Pizza.t) : list Estatistica :=
  (λ equipe,
     let pizzasEquipe := filter (λ p, Pizza.equipe_id p = Equipe.id equipe) pizzas in
     mkEstatistica equipe
       (length pizzasEquipe)
       (length (filter (λ p, Pizza.status p = Pronta) pizzasEquipe))
       (length (filter (λ p, Pizza.resultado p = Some Aprovada) pizzasEquipe))
       (length (filter (λ p, Pizza.resultado p = Some Reprovada) pizzasEquipe)))
  <$> equipes.

(** The counters of the later revision of the screen ([estatisticasGerais];
    its [totalGastos] is the constant 0). *)
Record EstatisticasGerais := mkGerais {
  totalPizzas : nat;
  geraisAprovadas : nat;
  geraisReprovadas : nat;
  pizzasPendentes : nat;
  equipesAtivas : nat
}.

Definition estatisticasGerais (equipes : list Equipe.t)
    (pizzas : list Pizza.t) : EstatisticasGerais :=
  mkGerais (length pizzas)
           (length (filter (λ p, Pizza.resultado p = Some Aprovada) pizzas))
           (length (filter (λ p, Pizza.resultado p = Some Reprovada) pizzas))
           (length (filter (λ p, Pizza.status p = Pronta) pizzas))
           (length equipes).

Definition getEquipeNome (equipes : list Equipe.t) (equipeId : string) : string :=
  match list_find (λ e, Equipe.id e = equipeId) equipes with
  | Some (_, equipe) => Equipe.nome equipe
  | None => "Equipe não encontrada"
  end.

End Painel.

(** ** The flavours shown for the round: [VisualizadorSaboresRodada] *)

(** A row of the round's planned sequence, as the hook
    [useHistoricoSaboresRodada] returns it. *)
Module Historico.
Record t := mk {
  id : string;
  ordem : Z;
  sabor_id : string;
  sabor : option Sabor.t
}.
End Historico.

Module Visualizador.

Definition porOrdem (a b : Historico.t) : Prop := Historico.ordem a ≤ Historico.ordem b.

#[global] Instance porOrdem_dec a b : Decision (porOrdem a b).
Proof. unfold porOrdem. apply _. Defined.





(** [getSaborNome]: the joined name when there is one (and it is not
    empty), else the name found by key in the catalogue, else the
    fallback. *)
Definition nomeOuFalta (nome : option string) : string :=
  match nome with
  | Some n => if bool_decide (n ≠ "") then n else "Sabor não encontrado"
  | None => "Sabor não encontrado"
  end.

Definition getSaborNome (sabores : list Sabor.t) (item : option Historico.t)
    : string :=
  let juntado := Sabor.nome <$> (item ≫= Historico.sabor) in
  let saborEncontrado :=
    item ≫= (λ i, snd <$> list_find (λ s, Sabor.id s = Historico.sabor_id i) sabores) in
  match juntado with
  | Some nome =>
    if bool_decide (nome ≠ "") then nome
    else nomeOuFalta (Sabor.nome <$> saborEncontrado)
  | None => nomeOuFalta (Sabor.nome <$> saborEncontrado)
  end.

End Visualizador.

(** ** The clock face: [formatarTempo] *)

Module Tempo.

(** [s.padStart(2, '0')] *)
Definition padStart2 (s : string) : string :=
  match String.length s with
  | 0%nat => "00"
  | 1%nat => "0" +:+ s
  | _ => s
  end.

(** The character of a decimal digit. *)
Definition digito (d : Z) : Ascii.ascii := Ascii.ascii_of_nat (48 + Z.to_nat d).

(** [formatarTempo] of the team screen, on whole seconds. *)
Definition formatarTempo (segundos : Z) : string :=
  let mins := segundos / 60 in
  let secs := Z.rem segundos 60 in
  padStart2 (pretty mins) +:+ ":" +:+ padStart2 (pretty secs).

(** [formatarTempo] of the administration screen: the minutes are not
    padded. *)
Definition formatarTempoAdmin (segundos : Z) : string :=
  let mins := segundos / 60 in
  let secs := Z.rem segundos 60 in
  pretty mins +:+ ":" +:+ padStart2 (pretty secs).

End Tempo.

(** ** The gates of a submission *)

Module Portas.

(** Every gate of [handleEnviarPizza] is open. *)
Definition abertas (c : Fila.Componente) : Prop :=
  ∃ r, Fila.rodadaAtual c = Some r
       ∧ Fila.saborSelecionado c ≠ ""
       ∧ Rodada.status r = Ativa
       ∧ Fila.isActive c = true
       ∧ 0 < Fila.timeRemaining c
       ∧ Z.of_nat (length (Fila.pizzas c)) < Fila.limitePizzasRodada c.

(** The notification that a flavour was chosen is among the events. *)
Definition avisou_sabor (ev : list Evento) : Prop :=
  ∃ e r s, PizzaSaborSelecionado e r s ∈ ev.

End Portas.

(** ** Sample data *)

Module Exemplos.
Definition equipeA : Equipe.t := Equipe.mk "e1" "Alfa".
Definition equipeB : Equipe.t := Equipe.mk "e2" "Beta".
Definition calabresa : Sabor.t := Sabor.mk "s1" "Calabresa".

Definition rodadaFinalizada : Rodada.t :=
  Rodada.mk "r1" 1 Finalizada 300 (Some 0) (Some 300000).
Definition rodadaAtiva : Rodada.t :=
  Rodada.mk "r2" 2 Ativa 300 (Some 1000) None.

Definition pizza1 : Pizza.t :=
  Pizza.mk "p1" "e1" "r1" (Some "s1") Pronta None None None 2000 2000.
Definition pizza2 : Pizza.t :=
  Pizza.mk "p2" "e2" "r1" None Pronta None None None 1000 1000.
Definition pizza3 : Pizza.t :=
  Pizza.mk "p3" "e1" "r1" (Some "s1") Avaliada (Some Aprovada) None
           (Some "Avaliador") 500 900.

Definition banco : Banco.t :=
  Banco.mk [pizza1; pizza2; pizza3] [equipeA; equipeB]
           [rodadaFinalizada; rodadaAtiva] [calabresa].
End Exemplos.

Module ExemplosExtra.
Definition mussarela : Sabor.t := Sabor.mk "s2" "Mussarela".
End ExemplosExtra.

(** * Properties *)

(** ** Clock reconciliation *)

Lemma ceil_div_nonneg a : 0 ≤ a → 0 ≤ Relogio.ceil_div a 1000.
Proof.
  intros Ha. unfold Relogio.ceil_div.
  assert (- a / 1000 ≤ 0); [|lia].
  apply Z.div_le_upper_bound; lia.
Qed.

Lemma ceil_div_nonpos a : a ≤ 0 → Relogio.ceil_div a 1000 ≤ 0.
Proof.
  intros Ha. unfold Relogio.ceil_div.
  assert (0 ≤ - a / 1000); [|lia].
  apply Z.div_pos; lia.
Qed.

Lemma ceil_div_pos a : 0 < a → 0 < Relogio.ceil_div a 1000.
Proof.
  intros Ha. unfold Relogio.ceil_div.
  assert (- a / 1000 < 0); [|lia].
  apply Z.div_lt_upper_bound; lia.
Qed.

(** [ceil_div] is the ceiling: the least integer [q] with [a ≤ q * 1000]. *)
Lemma ceil_div_least a q :
  Relogio.ceil_div a 1000 ≤ q ↔ a ≤ q * 1000.
Proof.
  unfold Relogio.ceil_div. split; intros H.
  - pose proof (Z.mul_div_le (- a) 1000 ltac:(lia)).
    pose proof (Z.mod_pos_bound (- a) 1000 ltac:(lia)).
    pose proof (Z.div_mod (- a) 1000 ltac:(lia)). lia.
  - assert (- q ≤ - a / 1000); [|lia].
    apply Z.div_le_lower_bound; lia.
Qed.

Lemma remaining_spec_of_max anchor limit agora :
  Relogio.ceil_div (Z.max 0 (anchor + limit * 1000 - agora)) 1000
  = Relogio.remaining_spec anchor limit agora.
Proof.
  unfold Relogio.remaining_spec.
  destruct (Z.le_gt_cases (anchor + limit * 1000 - agora) 0) as [Hle|Hgt].
  - rewrite (Z.max_l 0 (anchor + _ - _)) by lia.
    pose proof (ceil_div_nonpos _ Hle). rewrite Z.max_l by lia. reflexivity.
  - rewrite (Z.max_r 0 (anchor + _ - _)) by lia.
    pose proof (ceil_div_pos _ Hgt). rewrite Z.max_r by lia. reflexivity.
Qed.

(** The value of the contract is the least whole number of seconds, not
    below zero, that covers the milliseconds left. *)
Lemma remaining_spec_least anchor limit agora q :
  0 ≤ q →
  Relogio.remaining_spec anchor limit agora ≤ q
  ↔ anchor + limit * 1000 - agora ≤ q * 1000.
Proof.
  intros Hq. unfold Relogio.remaining_spec. rewrite <- ceil_div_least. lia.
Qed.

(** C4. Both reconcilers return
    max(0, ceil((anchor + limit·1000 − now) / 1000)): the evaluation-time
    countdown anchored at [finalizou_em] with the 60 s limit, and the round
    countdown anchored at [iniciou_em] with [tempo_limite]; the value is
    never negative, it is the least whole number of seconds covering the
    milliseconds left, and the computation is a function of the round and
    the clock alone (it returns a value and writes nothing). *)
Theorem clock_reconciler_remaining
    (rf ra : Rodada.t) (fim inicio agora : Z)
    (Hfin : Rodada.status rf = Finalizada)
    (Hfim : Rodada.finalizou_em rf = Some fim)
    (Hat : Rodada.status ra = Ativa)
    (Hini : Rodada.iniciou_em ra = Some inicio) :
  Relogio.calcularTempoRestante (Some rf) agora
    = Some (Relogio.remaining_spec fim Relogio.TEMPO_ADICIONAL_SEGUNDOS agora)
  ∧ Relogio.timerRodada (Some ra) agora
    = Some (Relogio.remaining_spec inicio (Rodada.tempo_limite ra) agora,
            bool_decide (0 < Relogio.remaining_spec inicio (Rodada.tempo_limite ra) agora))
  ∧ 0 ≤ Relogio.remaining_spec fim Relogio.TEMPO_ADICIONAL_SEGUNDOS agora
  ∧ 0 ≤ Relogio.remaining_spec inicio (Rodada.tempo_limite ra) agora
  ∧ (∀ anchor limit q, 0 ≤ q →
       Relogio.remaining_spec anchor limit agora ≤ q
       ↔ anchor + limit * 1000 - agora ≤ q * 1000).
Proof.
  split; [|split; [|split; [|split;
    [|intros anchor limit q Hq; apply remaining_spec_least, Hq]]]].
  - unfold Relogio.calcularTempoRestante. rewrite Hfin, Hfim.
    rewrite bool_decide_eq_false_2 by (intros H; apply H; reflexivity).
    rewrite <- remaining_spec_of_max.
    case_bool_decide as Hle.
    + rewrite Z.max_l by lia. reflexivity.
    + rewrite Z.max_r by lia. reflexivity.
  - unfold Relogio.timerRodada, Relogio.updateTimer. rewrite Hat, Hini.
    rewrite bool_decide_eq_false_2 by (intros H; apply H; reflexivity).
    rewrite <- remaining_spec_of_max.
    replace (Rodada.tempo_limite ra * 1000 - (agora - inicio))
      with (inicio + Rodada.tempo_limite ra * 1000 - agora) by lia.
    do 2 f_equal. apply bool_decide_ext.
    set (m := Z.max 0 _). split; intros H.
    + apply ceil_div_pos; exact H.
    + destruct (Z.le_gt_cases m 0) as [Hm|Hm]; [|exact Hm].
      pose proof (ceil_div_nonpos _ Hm). lia.
  - unfold Relogio.remaining_spec. lia.
  - unfold Relogio.remaining_spec. lia.
Qed.

Lemma clock_reconciler_remaining_witness :
  Relogio.calcularTempoRestante (Some Exemplos.rodadaFinalizada) 340500 = Some 20
  ∧ Relogio.timerRodada (Some Exemplos.rodadaAtiva) 2001 = Some (299, true).
Proof.
  pose proof (clock_reconciler_remaining Exemplos.rodadaFinalizada Exemplos.rodadaAtiva
                300000 1000 340500 eq_refl eq_refl eq_refl eq_refl) as (H1 & _).
  pose proof (clock_reconciler_remaining Exemplos.rodadaFinalizada Exemplos.rodadaAtiva
                300000 1000 2001 eq_refl eq_refl eq_refl eq_refl) as (_ & H2 & _).
  split; [exact H1 | exact H2].
Defined.

(** ** Auto-timeout rejector *)

Section Rejector.
Import Rejeicao.
Variable rodadaId : string.

Lemma reprovada_nao_pendente agora p :
  ¬ pendenteDaRodada rodadaId (reprovar_linha agora p).
Proof. unfold pendenteDaRodada. simpl. intros (_ & H & _). discriminate H. Qed.

Lemma atualizada_nao_pendente agora p :
  ¬ pendenteDaRodada rodadaId (reprovar_se_pendente rodadaId agora p).
Proof.
  unfold reprovar_se_pendente.
  destruct (decide (pendenteDaRodada rodadaId p)) as [Hp|Hp];
    [apply reprovada_nao_pendente | exact Hp].
Qed.

(** After the bulk update no row matches its predicate. *)
Lemma sem_pendentes_apos_update agora (l : list Pizza.t) :
  filter (pendenteDaRodada rodadaId) (reprovar_se_pendente rodadaId agora <$> l) = [].
Proof.
  induction l as [|p l IH]; [reflexivity|].
  rewrite fmap_cons, filter_cons_False by apply atualizada_nao_pendente.
  exact IH.
Qed.

Lemma filter_nil_not_elem (l : list Pizza.t) :
  filter (pendenteDaRodada rodadaId) l = [] →
  ∀ p, p ∈ l → ¬ pendenteDaRodada rodadaId p.
Proof.
  intros Hnil p Hin Hp.
  assert (p ∈ filter (pendenteDaRodada rodadaId) l) as H
    by (apply list_elem_of_filter; split; assumption).
  rewrite Hnil in H. by apply not_elem_of_nil in H.
Qed.

(** With nothing pending the rejector returns early, whatever the store
    answers. *)
Lemma reprovar_sem_pendentes se ue agora db :
  filter (pendenteDaRodada rodadaId) (Banco.pizzas db) = [] →
  reprovarPizzasNaoAvaliadas se ue agora rodadaId db = (db, []).
Proof.
  intros Hnil. unfold reprovarPizzasNaoAvaliadas. rewrite Hnil. simpl.
  destruct se; reflexivity.
Qed.

(** Row by row, what a store sees after an invocation that met no error. *)
Lemma reprovar_linhas agora db :
  Banco.pizzas (reprovarPizzasNaoAvaliadas false false agora rodadaId db).1
  = reprovar_se_pendente rodadaId agora <$> Banco.pizzas db.
Proof.
  unfold reprovarPizzasNaoAvaliadas. simpl.
  case_bool_decide as Hlen; simpl; [|reflexivity].
  apply length_zero_iff_nil in Hlen.
  pose proof (filter_nil_not_elem _ Hlen) as Hno.
  clear Hlen. induction (Banco.pizzas db) as [|p l IH]; [reflexivity|].
  rewrite fmap_cons. f_equal.
  - unfold reprovar_se_pendente. rewrite decide_False; [reflexivity|].
    apply Hno. left.
  - apply IH. intros q Hq. apply Hno. right. exact Hq.
Qed.

Lemma sem_pendentes_apos_reprovar agora db :
  filter (pendenteDaRodada rodadaId)
    (Banco.pizzas (reprovarPizzasNaoAvaliadas false false agora rodadaId db).1) = [].
Proof. rewrite reprovar_linhas. apply sem_pendentes_apos_update. Qed.

(** Once the round is in the processed set and no interval is armed, no
    effect run for that round and no tick touches the store. *)
Lemma executar_processado acoes :
  ∀ st db,
    rodadaId ∈ tempoAdicionalProcessadoRef st →
    intervalRef st = None →
    Forall (sobre_rodada rodadaId) acoes →
    ∃ st', executar acoes st db = (st', db, [])
           ∧ rodadaId ∈ tempoAdicionalProcessadoRef st'
           ∧ intervalRef st' = None.
Proof.
  induction acoes as [|a acoes IH]; intros st db Hin Hint Hall.
  - exists st. auto.
  - apply Forall_cons in Hall as [Ha Hall].
    assert (∃ st1, passo a st db = (st1, db, [])
                   ∧ rodadaId ∈ tempoAdicionalProcessadoRef st1
                   ∧ intervalRef st1 = None) as (st1 & Hp & Hin1 & Hint1).
    { destruct a as [r se ue agora|se ue agora]; simpl in *.
      - unfold efeitoPrincipal. case_bool_decide.
        + eexists; split; [reflexivity|]. simpl. auto.
        + rewrite Ha. rewrite bool_decide_eq_true_2 by exact Hin.
          eexists; split; [reflexivity|]. simpl. auto.
      - unfold tick. rewrite Hint. eexists; split; [reflexivity|]. auto. }
    destruct (IH st1 db Hin1 Hint1 Hall) as (st2 & He & Hin2 & Hint2).
    exists st2. simpl. rewrite Hp, He. auto.
Qed.
End Rejector.

(** State of the hook after its effect ran for a finished round whose
    additional time is over: the round is in the processed set and no
    interval is armed. *)
Lemma efeito_marca_processado r se ue fim agora st db :
  Rodada.status r = Finalizada →
  Rodada.finalizou_em r = Some fim →
  fim + Relogio.TEMPO_ADICIONAL_SEGUNDOS * 1000 ≤ agora →
  let st' := (Rejeicao.efeitoPrincipal (Some r) se ue agora st db).1.1 in
  Rodada.id r ∈ Rejeicao.tempoAdicionalProcessadoRef st'
  ∧ Rejeicao.intervalRef st' = None.
Proof.
  intros Hfin Hfim Hexp. unfold Rejeicao.efeitoPrincipal.
  rewrite bool_decide_eq_false_2 by (rewrite Hfin; intros H; apply H; reflexivity).
  case_bool_decide as Hproc; [simpl; auto|].
  unfold Relogio.calcularTempoRestante. rewrite Hfin, Hfim.
  rewrite bool_decide_eq_false_2 by (intros H; apply H; reflexivity).
  rewrite (bool_decide_eq_true_2 (_ - agora ≤ 0)) by lia.
  rewrite bool_decide_eq_true_2 by lia.
  destruct (Rejeicao.reprovarPizzasNaoAvaliadas _ _ _ _ _) as [db' ev].
  simpl. split; [set_solver|reflexivity].
Qed.

(** The same after the interval fired once the additional time is over. *)
Lemma tick_marca_processado r se ue fim agora st db :
  Rejeicao.intervalRef st = Some r →
  Rodada.status r = Finalizada →
  Rodada.finalizou_em r = Some fim →
  fim + Relogio.TEMPO_ADICIONAL_SEGUNDOS * 1000 ≤ agora →
  let st' := (Rejeicao.tick se ue agora st db).1.1 in
  Rodada.id r ∈ Rejeicao.tempoAdicionalProcessadoRef st'
  ∧ Rejeicao.intervalRef st' = None.
Proof.
  intros Hint Hfin Hfim Hexp. unfold Rejeicao.tick. rewrite Hint.
  unfold Relogio.calcularTempoRestante. rewrite Hfin, Hfim.
  rewrite bool_decide_eq_false_2 by (intros H; apply H; reflexivity).
  rewrite (bool_decide_eq_true_2 (_ - agora ≤ 0)) by lia.
  rewrite bool_decide_eq_true_2 by lia.
  destruct (Rejeicao.reprovarPizzasNaoAvaliadas _ _ _ _ _) as [db' ev].
  simpl. split; [set_solver|reflexivity].
Qed.

(** C1. For a finished round whose additional time is over: the first
    invocation of the rejector rejects every item that was ready and
    unevaluated and keeps every other row; it reports as many rejections as
    there were such items; the second and the third invocation, whatever
    the store answers, find no row, leave the store as the first one left
    it and notify nobody, so each item was written once, at the instant of
    the first invocation. In a process whose hook has triggered for the
    round (from its effect or from its interval), the processed set keeps
    every later effect run for that round and every tick from touching any
    store. *)
Theorem rejector_exactly_once
    (r : Rodada.t) (fim agora t1 t2 t3 : Z) (se ue se2 ue2 se3 ue3 : bool)
    (st : Rejeicao.Estado) (db : Banco.t)
    (Hfin : Rodada.status r = Finalizada)
    (Hfim : Rodada.finalizou_em r = Some fim)
    (Hexp : fim + Relogio.TEMPO_ADICIONAL_SEGUNDOS * 1000 ≤ agora) :
  let rodadaId := Rodada.id r in
  let r1 := Rejeicao.reprovarPizzasNaoAvaliadas false false t1 rodadaId db in
  let r2 := Rejeicao.reprovarPizzasNaoAvaliadas se2 ue2 t2 rodadaId r1.1 in
  let r3 := Rejeicao.reprovarPizzasNaoAvaliadas se3 ue3 t3 rodadaId r2.1 in
  (∀ i p, Banco.pizzas db !! i = Some p →
     Banco.pizzas r1.1 !! i
     = Some (if decide (Rejeicao.pendenteDaRodada rodadaId p)
             then Rejeicao.reprovar_linha t1 p else p))
  ∧ (∀ n, n = length (filter (Rejeicao.pendenteDaRodada rodadaId) (Banco.pizzas db)) →
     n ≠ 0%nat →
     r1.2 = [ ToastWarning n;
              PizzasReprovadasAutomaticamente rodadaId n;
              GlobalDataChanged "pizzas" "auto-reprovacao" ])
  ∧ filter (Rejeicao.pendenteDaRodada rodadaId) (Banco.pizzas r1.1) = []
  ∧ r2 = (r1.1, [])
  ∧ r3 = (r1.1, [])
  ∧ (∀ acoes db',
       Forall (Rejeicao.sobre_rodada rodadaId) acoes →
       let st1 := (Rejeicao.efeitoPrincipal (Some r) se ue agora st db).1.1 in
       (Rejeicao.executar acoes st1 db').1.2 = db'
       ∧ (Rejeicao.executar acoes st1 db').2 = [])
  ∧ (Rejeicao.intervalRef st = Some r →
     ∀ acoes db',
       Forall (Rejeicao.sobre_rodada rodadaId) acoes →
       let st1 := (Rejeicao.tick se ue agora st db).1.1 in
       (Rejeicao.executar acoes st1 db').1.2 = db'
       ∧ (Rejeicao.executar acoes st1 db').2 = []).
Proof.
  intros rodadaId r1 r2 r3.
  assert (filter (Rejeicao.pendenteDaRodada rodadaId) (Banco.pizzas r1.1) = [])
    as Hnil by apply sem_pendentes_apos_reprovar.
  assert (r2 = (r1.1, [])) as H2 by (apply reprovar_sem_pendentes; exact Hnil).
  assert (r3 = (r1.1, [])) as H3.
  { subst r3. rewrite H2. simpl. apply reprovar_sem_pendentes; exact Hnil. }
  split; [|split; [|split; [exact Hnil|split; [exact H2|split; [exact H3|split]]]]].
  - intros i p Hp. subst r1. rewrite reprovar_linhas, list_lookup_fmap, Hp.
    reflexivity.
  - intros n Hn Hn0. subst r1. unfold Rejeicao.reprovarPizzasNaoAvaliadas.
    simpl. rewrite <- Hn. rewrite bool_decide_eq_false_2 by exact Hn0.
    reflexivity.
  - intros acoes db' Hall st1.
    destruct (efeito_marca_processado r se ue fim agora st db Hfin Hfim Hexp)
      as [Hin Hint].
    destruct (executar_processado rodadaId acoes st1 db' Hin Hint Hall)
      as (st' & He & _).
    rewrite He. auto.
  - intros Hint0 acoes db' Hall st1.
    destruct (tick_marca_processado r se ue fim agora st db Hint0 Hfin Hfim Hexp)
      as [Hin Hint].
    destruct (executar_processado rodadaId acoes st1 db' Hin Hint Hall)
      as (st' & He & _).
    rewrite He. auto.
Qed.

Lemma rejector_exactly_once_witness :
  let r1 := Rejeicao.reprovarPizzasNaoAvaliadas false false 400000 "r1"
              Exemplos.banco in
  Banco.pizzas r1.1
  = [ Rejeicao.reprovar_linha 400000 Exemplos.pizza1;
      Rejeicao.reprovar_linha 400000 Exemplos.pizza2;
      Exemplos.pizza3 ]
  ∧ Rejeicao.reprovarPizzasNaoAvaliadas false false 401000 "r1" r1.1 = (r1.1, []).
Proof.
  pose proof (rejector_exactly_once Exemplos.rodadaFinalizada 300000 400000
                400000 401000 402000 false false false false false false
                Rejeicao.inicial Exemplos.banco eq_refl eq_refl
                ltac:(vm_compute; discriminate)) as (_ & _ & _ & H2 & _).
  split; [reflexivity | exact H2].
Defined.

(** C8. When the rejector runs for a round and the store reports no error,
    every item of that round that was ready and had no result becomes
    evaluated and rejected, with the one fixed reason and the evaluator
    marker 'Sistema - Timeout'; its other columns are kept. A manual
    evaluation writes the marker 'Avaliador', which is a different
    marker. *)
Theorem rejector_marks_timeout
    (rodadaId : string) (agora : Z) (db : Banco.t) (i : nat) (p : Pizza.t)
    (Hp : Banco.pizzas db !! i = Some p)
    (Hpend : Rejeicao.pendenteDaRodada rodadaId p) :
  (∃ p',
     Banco.pizzas
       (Rejeicao.reprovarPizzasNaoAvaliadas false false agora rodadaId db).1 !! i
     = Some p'
     ∧ Pizza.status p' = Avaliada
     ∧ Pizza.resultado p' = Some Reprovada
     ∧ Pizza.justificativa_reprovacao p'
       = Some "Tempo de avaliação esgotado - reprovação automática"
     ∧ Pizza.avaliado_por p' = Some "Sistema - Timeout"
     ∧ Pizza.id p' = Pizza.id p
     ∧ Pizza.equipe_id p' = Pizza.equipe_id p
     ∧ Pizza.rodada_id p' = Pizza.rodada_id p
     ∧ Pizza.sabor_id p' = Pizza.sabor_id p
     ∧ Pizza.created_at p' = Pizza.created_at p)
  ∧ (∀ t resultado justificativa q,
       Pizza.avaliado_por (Avaliacao.avaliar_linha t resultado justificativa q)
       = Some "Avaliador")
  ∧ Rejeicao.AVALIADOR_TIMEOUT ≠ Avaliacao.AVALIADOR_MANUAL.
Proof.
  split; [|split].
  - exists (Rejeicao.reprovar_linha agora p).
    rewrite reprovar_linhas, list_lookup_fmap, Hp. simpl.
    unfold Rejeicao.reprovar_se_pendente. rewrite decide_True by exact Hpend.
    repeat split; reflexivity.
  - reflexivity.
  - discriminate.
Qed.

Lemma rejector_marks_timeout_witness :
  ∃ p',
    Banco.pizzas
      (Rejeicao.reprovarPizzasNaoAvaliadas false false 400000 "r1"
         Exemplos.banco).1 !! 1%nat = Some p'
    ∧ Pizza.resultado p' = Some Reprovada
    ∧ Pizza.avaliado_por p' = Some "Sistema - Timeout".
Proof.
  destruct (rejector_marks_timeout "r1" 400000 Exemplos.banco 1 Exemplos.pizza2
              eq_refl (conj eq_refl (conj eq_refl eq_refl)))
    as ((p' & Hl & _ & Hr & _ & Ha & _) & _).
  exists p'. auto.
Defined.

(** ** Manual evaluation *)

(** C2, as the specification states it, fails: on an item that already
    carries the result approved, [avaliarPizza] raises no error, returns,
    and the store then holds the result rejected for that item. *)
Lemma avaliarPizza_overwrites_cex :
  Pizza.resultado Exemplos.pizza3 = Some Aprovada
  ∧ Banco.pizza_de Exemplos.banco "p3" = Some Exemplos.pizza3
  ∧ ¬ (∃ st' msg,
         Avaliacao.avaliarPizza false 9000 "p3" Reprovada (Some "massa crua")
           Avaliacao.inicial Exemplos.banco = inr (st', msg))
  ∧ ∃ st' db' ev,
      Avaliacao.avaliarPizza false 9000 "p3" Reprovada (Some "massa crua")
        Avaliacao.inicial Exemplos.banco = inl (st', db', ev)
      ∧ (Pizza.resultado <$> Banco.pizza_de db' "p3") = Some (Some Reprovada)
      ∧ Banco.pizza_de db' "p3" ≠ Some Exemplos.pizza3.
Proof.
  split; [reflexivity|]. split; [reflexivity|]. split.
  - intros (st' & msg & H). discriminate H.
  - eexists _, _, _. split; [reflexivity|]. split; [reflexivity|].
    vm_compute. discriminate.
Qed.

(** C2, amended. [avaliarPizza] updates by id and by nothing else: when
    the store reports no error it returns, and every row with that id is
    then evaluated with the verdict given, the marker 'Avaliador' and the
    instant of the call, whether or not the row carried a result before;
    the reason is cleared on approval and stored on rejection when one is
    given; every other row is kept. When the store reports an error the
    call throws and the store is the caller's. *)
Theorem avaliarPizza_unconditional
    (agora : Z) (pizzaId : string) (resultado : Resultado)
    (justificativa : option string) (st : Avaliacao.Estado) (db : Banco.t) :
  (∃ st' db' ev,
     Avaliacao.avaliarPizza false agora pizzaId resultado justificativa st db
     = inl (st', db', ev)
     ∧ ∀ i p, Banco.pizzas db !! i = Some p →
         ∃ p', Banco.pizzas db' !! i = Some p'
           ∧ (Pizza.id p = pizzaId →
                Pizza.id p' = pizzaId
                ∧ Pizza.status p' = Avaliada
                ∧ Pizza.resultado p' = Some resultado
                ∧ Pizza.avaliado_por p' = Some "Avaliador"
                ∧ Pizza.updated_at p' = agora
                ∧ (resultado = Aprovada → Pizza.justificativa_reprovacao p' = None)
                ∧ (resultado = Reprovada → ∀ j, justificativa = Some j →
                     Pizza.justificativa_reprovacao p' = Some j))
           ∧ (Pizza.id p ≠ pizzaId → p' = p))
  ∧ (∃ st' msg,
       Avaliacao.avaliarPizza true agora pizzaId resultado justificativa st db
       = inr (st', msg)).
Proof.
  split.
  - eexists _, _, _. split; [reflexivity|]. simpl. intros i p Hp.
    rewrite list_lookup_fmap, Hp. simpl. eexists. split; [reflexivity|].
    destruct (decide (Pizza.id p = pizzaId)) as [Heq|Hne].
    + split; [|intros Hne; contradiction]. intros _. simpl.
      repeat split; try assumption; try reflexivity.
      * intros ->. reflexivity.
      * intros -> j ->. reflexivity.
    + split; [intros Heq; contradiction|]. reflexivity.
  - eexists _, _. reflexivity.
Qed.

(** ** Subscription lifecycle of the evaluator hook *)

(** [cleanupChannel] removes the channel held in [channelRef] once the
    subscription was flagged as established. *)
Lemma cleanupChannel_confirmado st cl c :
  Avaliacao.channelRef st = Some c →
  Avaliacao.isSubscribedRef st = true →
  (c ∉ Cliente.ouvintes (Avaliacao.cleanupChannel st cl).2)
  ∧ Avaliacao.channelRef (Avaliacao.cleanupChannel st cl).1 = None.
Proof.
  intros Hc Hs. unfold Avaliacao.cleanupChannel. rewrite Hc, Hs. simpl.
  split; [|reflexivity]. unfold Cliente.ouvintes, Cliente.removeChannel. simpl.
  intros Hin. apply list_elem_of_fmap in Hin as (k & -> & Hk).
  apply list_elem_of_filter in Hk as [_ Hk].
  apply list_elem_of_filter in Hk as [Hk _]. apply Hk. reflexivity.
Qed.

(** Without that flag the whole teardown leaves the client as it is. *)
Lemma desmontar_nao_confirmado st cl :
  Avaliacao.isSubscribedRef st = false →
  (Avaliacao.desmontar st cl).2 = cl
  ∧ Avaliacao.channelRef (Avaliacao.desmontar st cl).1 = Avaliacao.channelRef st.
Proof.
  destruct st as [ps l e t [c|] b i]; simpl; intros ->; auto.
Qed.

(** The teardown always cancels the timer of the additional time. *)
Lemma desmontar_cancela_timer st cl :
  Avaliacao.intervalRef (Avaliacao.desmontar st cl).1 = None.
Proof.
  destruct st as [ps l e t [c|] [|] i]; reflexivity.
Qed.

(** C7 does not hold of the evaluator hook. Mount it and unmount it before
    the feed has confirmed the subscription: the channel is still
    registered and listening, [channelRef] still holds it, and a change
    reported afterwards runs the handler, which rewrites the list of the
    unmounted hook. The timer is cancelled. *)
Theorem teardown_keeps_unconfirmed_channel :
  let montado := Avaliacao.efeitoRealtime false Avaliacao.inicial
                   Cliente.inicial Exemplos.banco in
  let desmontado := Avaliacao.desmontar montado.1 montado.2 in
  Cliente.ouvintes montado.2 = [0%nat]
  ∧ Avaliacao.isSubscribedRef montado.1 = false
  ∧ Cliente.ouvintes desmontado.2 = [0%nat]
  ∧ Avaliacao.channelRef desmontado.1 = Some 0%nat
  ∧ Avaliacao.intervalRef desmontado.1 = None
  ∧ (Linha.pizza <$> Avaliacao.pizzas desmontado.1)
    = [Exemplos.pizza2; Exemplos.pizza1]
  ∧ (Linha.pizza <$> Avaliacao.pizzas
       (Avaliacao.entregar (DELETE Exemplos.pizza2) desmontado.1 desmontado.2
          Exemplos.banco))
    = [Exemplos.pizza1].
Proof. vm_compute. repeat split; reflexivity. Qed.

(** ** Extending the round *)

Lemma rodada_de_update id novo db id' :
  Banco.rodada_de
    (Banco.com_rodadas (Producao.update_tempo_limite id novo (Banco.rodadas db)) db) id'
  = (λ r, if bool_decide (Rodada.id r = id)
          then Rodada.mk (Rodada.id r) (Rodada.numero r) (Rodada.status r)
                         novo (Rodada.iniciou_em r) (Rodada.finalizou_em r)
          else r) <$> Banco.rodada_de db id'.
Proof.
  unfold Banco.rodada_de, Producao.update_tempo_limite. simpl.
  rewrite list_find_fmap.
  rewrite (list_find_ext _ (λ r, Rodada.id r = id')).
  - destruct (list_find _ (Banco.rodadas db)) as [[i x]|]; reflexivity.
  - intros x. simpl. case_bool_decide; reflexivity.
Qed.

Lemma rodada_de_id db id r : Banco.rodada_de db id = Some r → Rodada.id r = id.
Proof.
  unfold Banco.rodada_de. intros H.
  destruct (list_find _ (Banco.rodadas db)) as [[i x]|] eqn:Hf; [|discriminate].
  simpl in H. injection H as <-. apply list_find_Some in Hf as (_ & Hx & _).
  exact Hx.
Qed.

(** C3, as the specification states it, fails: an active round with a
    limit of 300 s of which 200 s are consumed, shortened by five minutes,
    gets the limit 0, below the time consumed. *)
Lemma adicionarMinutos_below_elapsed_cex :
  let r := Exemplos.rodadaAtiva in
  let agora := 201000 in
  let db' := (Producao.adicionarMinutos (Some r) false (-5) Exemplos.banco).1 in
  Rodada.status r = Ativa
  ∧ Producao.tempo_limite_de (Rodada.id r) Exemplos.banco = Some 300
  ∧ Producao.decorrido r agora = 200
  ∧ Producao.tempo_limite_de (Rodada.id r) db' = Some 0
  ∧ ¬ (∀ novo, Producao.tempo_limite_de (Rodada.id r) db' = Some novo →
         Producao.decorrido r agora ≤ novo).
Proof.
  repeat split.
  intros H. specialize (H 0 eq_refl). vm_compute in H. apply H. reflexivity.
Qed.

(** C3, amended. [adicionarMinutos] writes the limit it holds plus
    sixty times the minutes given, for a negative number of minutes as for
    a positive one, with no floor at the time consumed; it touches no
    other round and no other table. *)
Theorem adicionarMinutos_adds_delta
    (r : Rodada.t) (minutos : Z) (db : Banco.t) :
  let db' := (Producao.adicionarMinutos (Some r) false minutos db).1 in
  Producao.tempo_limite_de (Rodada.id r) db'
  = (λ _, Rodada.tempo_limite r + minutos * 60)
      <$> Producao.tempo_limite_de (Rodada.id r) db
  ∧ (∀ id', id' ≠ Rodada.id r → Banco.rodada_de db' id' = Banco.rodada_de db id')
  ∧ Banco.pizzas db' = Banco.pizzas db
  ∧ (Producao.adicionarMinutos (Some r) false minutos db).2
    = [RodadaTempoAlterado (Rodada.id r) (Rodada.tempo_limite r + minutos * 60) minutos;
       ToastMinutos (bool_decide (0 < minutos)) (Z.abs minutos)].
Proof.
  simpl. split; [|split; [|split; reflexivity]].
  - unfold Producao.tempo_limite_de. rewrite rodada_de_update.
    destruct (Banco.rodada_de db (Rodada.id r)) as [x|] eqn:Hx; [|reflexivity].
    apply rodada_de_id in Hx. simpl.
    rewrite bool_decide_eq_true_2 by exact Hx. reflexivity.
  - intros id' Hne. rewrite rodada_de_update.
    destruct (Banco.rodada_de db id') as [x|] eqn:Hx; [|reflexivity].
    apply rodada_de_id in Hx. simpl.
    rewrite bool_decide_eq_false_2 by congruence. reflexivity.
Qed.

(** ** The listing offered for evaluation *)

#[local] Instance maisAntigaPrimeiro_total : Total Avaliacao.maisAntigaPrimeiro.
Proof. intros a b. unfold Avaliacao.maisAntigaPrimeiro. lia. Qed.

#[local] Instance maisAntigaPrimeiro_trans : Transitive Avaliacao.maisAntigaPrimeiro.
Proof. intros a b c. unfold Avaliacao.maisAntigaPrimeiro. lia. Qed.

Lemma omap_cons_eq {A B} (f : A → option B) (x : A) (l : list A) :
  omap f (x :: l) = match f x with Some y => y :: omap f l | None => omap f l end.
Proof. reflexivity. Qed.

(** The rows the joins of the evaluator's select keep. *)
Lemma juntar_linhas db (l : list Pizza.t) :
  Linha.pizza <$> omap (Avaliacao.juntar db) l
  = filter (λ p, is_Some (Banco.equipe_de db (Pizza.equipe_id p))) l.
Proof.
  induction l as [|p l IH]; [reflexivity|].
  rewrite omap_cons_eq. unfold Avaliacao.juntar at 1.
  destruct (Banco.equipe_de db (Pizza.equipe_id p)) as [e|] eqn:He;
    cbn -[omap fmap filter].
  - rewrite filter_cons_True by (rewrite He; eauto).
    rewrite fmap_cons, IH. reflexivity.
  - rewrite filter_cons_False by (rewrite He; apply is_Some_None). exact IH.
Qed.

Lemma filter_todos {A} (P : A → Prop) `{∀ x, Decision (P x)} (l : list A) :
  (∀ x, x ∈ l → P x) → filter P l = l.
Proof.
  induction l as [|x l IH]; intros Hall; [reflexivity|].
  rewrite filter_cons_True by (apply Hall; left).
  rewrite IH; [reflexivity|]. intros y Hy. apply Hall. right. exact Hy.
Qed.

(** C9. In a store where every item refers to a team, the listing the
    evaluator's hook fetches holds exactly the items with status ready and
    no result, each as often as the store holds it, whatever the team, and
    it is ordered by creation instant, oldest first. *)
Theorem listing_pending_oldest_first
    (db : Banco.t) (Hfk : Banco.equipes_integras db) :
  let lista := Linha.pizza <$> Avaliacao.selectPizzasParaAvaliacao db in
  lista ≡ₚ filter Avaliacao.prontaSemResultado (Banco.pizzas db)
  ∧ StronglySorted (λ a b, Pizza.created_at a ≤ Pizza.created_at b) lista
  ∧ (∀ p, p ∈ lista ↔
          p ∈ Banco.pizzas db ∧ Pizza.status p = Pronta ∧ Pizza.resultado p = None)
  ∧ (∀ st, Avaliacao.pizzas (Avaliacao.fetchPizzasParaAvaliacao false st db)
           = Avaliacao.selectPizzasParaAvaliacao db).
Proof.
  intros lista.
  assert (lista ≡ₚ filter Avaliacao.prontaSemResultado (Banco.pizzas db)) as Hperm.
  { subst lista. unfold Avaliacao.selectPizzasParaAvaliacao.
    rewrite merge_sort_Permutation, juntar_linhas.
    rewrite filter_todos; [reflexivity|].
    intros p Hp. apply list_elem_of_filter in Hp as [_ Hp]. apply Hfk, Hp. }
  split; [exact Hperm|]. split; [|split].
  - subst lista. unfold Avaliacao.selectPizzasParaAvaliacao.
    apply (StronglySorted_fmap _ Avaliacao.maisAntigaPrimeiro).
    + intros a b Hab. exact Hab.
    + apply StronglySorted_merge_sort; apply _.
  - intros p. rewrite Hperm, list_elem_of_filter.
    unfold Avaliacao.prontaSemResultado. tauto.
  - intros st. reflexivity.
Qed.

Lemma listing_pending_oldest_first_witness :
  (Linha.pizza <$> Avaliacao.selectPizzasParaAvaliacao Exemplos.banco)
  ≡ₚ [Exemplos.pizza1; Exemplos.pizza2]
  ∧ (Linha.pizza <$> Avaliacao.selectPizzasParaAvaliacao Exemplos.banco)
    = [Exemplos.pizza2; Exemplos.pizza1].
Proof.
  assert (Banco.equipes_integras Exemplos.banco) as Hfk.
  { intros p Hp. apply list_elem_of_In in Hp. simpl in Hp.
    destruct Hp as [<-|[<-|[<-|[]]]]; vm_compute; eauto. }
  destruct (listing_pending_oldest_first Exemplos.banco Hfk) as (Hperm & _).
  split; [exact Hperm | reflexivity].
Defined.

(** ** The team-scoped listing *)

#[local] Instance maisAntigaPrimeiroEquipe_total :
  Total AvaliacaoEquipe.maisAntigaPrimeiro.
Proof. intros a b. unfold AvaliacaoEquipe.maisAntigaPrimeiro. lia. Qed.

#[local] Instance maisAntigaPrimeiroEquipe_trans :
  Transitive AvaliacaoEquipe.maisAntigaPrimeiro.
Proof. intros a b c. unfold AvaliacaoEquipe.maisAntigaPrimeiro. lia. Qed.

Section Trim.
Import AvaliacaoEquipe.

Lemma trimStart_head l a l' :
  trimStart l = a :: l' → is_whitespace a = false.
Proof.
  induction l as [|b l IH]; simpl; [discriminate|].
  destruct (is_whitespace b) eqn:Hb; [exact IH|].
  intros H. injection H as <- _. exact Hb.
Qed.

Lemma trimStart_nil l :
  trimStart l = [] ↔ Forall (λ a, is_whitespace a = true) l.
Proof.
  induction l as [|b l IH]; simpl.
  - split; [constructor | reflexivity].
  - destruct (is_whitespace b) eqn:Hb.
    + rewrite IH. split; [intros H; constructor; assumption|].
      intros H. apply Forall_cons in H as [_ H]. exact H.
    + split; [discriminate|]. intros H. apply Forall_cons in H as [H _].
      congruence.
Qed.

(** What is left by [trimStart] is all whitespace only when nothing is
    left. *)
Lemma trimStart_so_espacos l :
  Forall (λ a, is_whitespace a = true) (trimStart l) → trimStart l = [].
Proof.
  destruct (trimStart l) as [|a l'] eqn:Ht; [reflexivity|].
  intros H. apply Forall_cons in H as [Ha _].
  apply trimStart_head in Ht. congruence.
Qed.

Lemma reverse_nil_inv {A} (l : list A) : reverse l = [] → l = [].
Proof.
  intros H. apply (f_equal reverse) in H.
  rewrite reverse_involutive in H. exact H.
Qed.

Lemma trim_vazio s : trim s = "" ↔ em_branco s.
Proof.
  unfold trim, em_branco.
  set (l := String.list_ascii_of_string s). split.
  - intros H.
    destruct (reverse (trimStart (reverse (trimStart l)))) as [|a k] eqn:Hr;
      [|discriminate H].
    apply reverse_nil_inv in Hr. apply trimStart_nil in Hr.
    rewrite Forall_reverse in Hr.
    apply trimStart_so_espacos in Hr. apply trimStart_nil. exact Hr.
  - intros H. apply trimStart_nil in H. rewrite H. reflexivity.
Qed.

(** The test of the hook is false exactly on the empty and on the
    whitespace-only identifiers. *)
Lemma equipeInformada_false s : equipeInformada s = false ↔ em_branco s.
Proof.
  unfold equipeInformada. rewrite andb_false_iff, !bool_decide_eq_false.
  rewrite <- trim_vazio. split.
  - intros [H|H].
    + apply dec_stable in H. subst s. reflexivity.
    + apply dec_stable in H. exact H.
  - intros H. right. intros Hne. apply Hne. exact H.
Qed.

Lemma equipeInformada_true s : equipeInformada s = true ↔ ¬ em_branco s.
Proof.
  rewrite <- equipeInformada_false. destruct (equipeInformada s); split;
    congruence.
Qed.

(** The rows the joins of the team-scoped select keep. *)
Lemma juntar_linhas_equipe db (l : list Pizza.t) :
  PizzaWithRelations.pizza <$> omap (juntar db) l
  = filter (λ p, is_Some (Banco.equipe_de db (Pizza.equipe_id p))
                 ∧ is_Some (Banco.rodada_de db (Pizza.rodada_id p))) l.
Proof.
  induction l as [|p l IH]; [reflexivity|].
  rewrite omap_cons_eq. unfold juntar at 1.
  destruct (Banco.equipe_de db (Pizza.equipe_id p)) as [e|] eqn:He;
    [destruct (Banco.rodada_de db (Pizza.rodada_id p)) as [r|] eqn:Hr|];
    cbn -[omap fmap filter].
  - rewrite filter_cons_True by (rewrite He, Hr; eauto).
    rewrite fmap_cons, IH. reflexivity.
  - rewrite filter_cons_False; [exact IH|].
    rewrite Hr. intros [_ H]. by apply is_Some_None in H.
  - rewrite filter_cons_False; [exact IH|].
    rewrite He. intros [H _]. by apply is_Some_None in H.
Qed.
End Trim.

(** C10. In a store where every item refers to a team and to a round, a
    fetch of the team-scoped hook that meets no error, silent or not and
    whatever the hook held before, sets the hook's list to the answer of
    the query and clears the error. That list is ordered oldest first; with
    an empty or whitespace-only team identifier it holds the ready,
    unevaluated items of every team and the channel configuration carries
    no filter, so changes of every team's rows reach the handler; with any
    other identifier it holds those of that team only and the configuration
    carries the filter on [equipe_id], so only that team's rows do. *)
Theorem team_scope_blank_or_not
    (equipeId : string) (silent : bool) (st : AvaliacaoEquipe.Estado)
    (db : Banco.t)
    (Hfe : Banco.equipes_integras db) (Hfr : Banco.rodadas_integras db) :
  let st' := AvaliacaoEquipe.fetchPizzasParaAvaliacao silent false equipeId st db in
  let lista := PizzaWithRelations.pizza <$> AvaliacaoEquipe.pizzas st' in
  let cfg := AvaliacaoEquipe.channelConfig equipeId in
  AvaliacaoEquipe.pizzas st'
  = AvaliacaoEquipe.selectPizzasParaAvaliacao equipeId db
  ∧ AvaliacaoEquipe.error st' = None
  ∧ StronglySorted (λ a b, Pizza.created_at a ≤ Pizza.created_at b) lista
  ∧ (AvaliacaoEquipe.em_branco equipeId →
       lista ≡ₚ filter Avaliacao.prontaSemResultado (Banco.pizzas db)
       ∧ ChannelConfig.filter cfg = None
       ∧ ∀ linha, AvaliacaoEquipe.entrega cfg linha = true)
  ∧ (¬ AvaliacaoEquipe.em_branco equipeId →
       lista ≡ₚ filter (λ p, Pizza.equipe_id p = equipeId
                             ∧ Avaliacao.prontaSemResultado p) (Banco.pizzas db)
       ∧ ChannelConfig.filter cfg = Some ("equipe_id=eq." +:+ equipeId)
       ∧ ∀ linha, AvaliacaoEquipe.entrega cfg linha = true
                  ↔ Pizza.equipe_id linha = equipeId).
Proof.
  intros st' lista cfg.
  assert (AvaliacaoEquipe.pizzas st'
          = AvaliacaoEquipe.selectPizzasParaAvaliacao equipeId db) as Hst'
    by reflexivity.
  assert (∀ l : list Pizza.t, (∀ p, p ∈ l → p ∈ Banco.pizzas db) →
            PizzaWithRelations.pizza <$> omap (AvaliacaoEquipe.juntar db) l = l)
    as Hjoin.
  { intros l Hl. rewrite juntar_linhas_equipe. apply filter_todos.
    intros p Hp. split; [apply Hfe | apply Hfr]; apply Hl, Hp. }
  split; [exact Hst'|]. split; [reflexivity|].
  subst lista. rewrite Hst'. clear Hst' st'.
  split; [|split].
  - unfold AvaliacaoEquipe.selectPizzasParaAvaliacao.
    apply (StronglySorted_fmap _ AvaliacaoEquipe.maisAntigaPrimeiro).
    + intros a b Hab. exact Hab.
    + apply StronglySorted_merge_sort; apply _.
  - intros Hb. apply equipeInformada_false in Hb.
    subst cfg.
    unfold AvaliacaoEquipe.selectPizzasParaAvaliacao,
      AvaliacaoEquipe.channelConfig, AvaliacaoEquipe.entrega.
    rewrite Hb. simpl. split; [|auto].
    rewrite merge_sort_Permutation, Hjoin; [reflexivity|].
    intros p Hp. apply list_elem_of_filter in Hp as [_ Hp]. exact Hp.
  - intros Hb. apply equipeInformada_true in Hb.
    subst cfg.
    unfold AvaliacaoEquipe.selectPizzasParaAvaliacao,
      AvaliacaoEquipe.channelConfig, AvaliacaoEquipe.entrega.
    rewrite Hb. simpl. split; [|split; [reflexivity|]].
    + rewrite merge_sort_Permutation, Hjoin.
      * rewrite list_filter_filter. reflexivity.
      * intros p Hp. apply list_elem_of_filter in Hp as [_ Hp].
        apply list_elem_of_filter in Hp as [_ Hp]. exact Hp.
    + intros linha. rewrite bool_decide_eq_true. split.
      * intros H. injection H as H. symmetry. exact H.
      * intros ->. reflexivity.
Qed.

Lemma team_scope_blank_or_not_witness :
  ChannelConfig.filter (AvaliacaoEquipe.channelConfig "  ") = None
  ∧ ChannelConfig.filter (AvaliacaoEquipe.channelConfig "e1")
    = Some "equipe_id=eq.e1"
  ∧ (PizzaWithRelations.pizza
       <$> AvaliacaoEquipe.pizzas
             (AvaliacaoEquipe.fetchPizzasParaAvaliacao false false "e1"
                (AvaliacaoEquipe.mkEstado [] true None) Exemplos.banco))
    = [Exemplos.pizza1]
  ∧ (PizzaWithRelations.pizza
       <$> AvaliacaoEquipe.pizzas
             (AvaliacaoEquipe.fetchPizzasParaAvaliacao true false "  "
                (AvaliacaoEquipe.mkEstado [] true None) Exemplos.banco))
    ≡ₚ [Exemplos.pizza1; Exemplos.pizza2].
Proof.
  assert (Banco.equipes_integras Exemplos.banco) as Hfe.
  { intros p Hp. apply list_elem_of_In in Hp. simpl in Hp.
    destruct Hp as [<-|[<-|[<-|[]]]]; vm_compute; eauto. }
  assert (Banco.rodadas_integras Exemplos.banco) as Hfr.
  { intros p Hp. apply list_elem_of_In in Hp. simpl in Hp.
    destruct Hp as [<-|[<-|[<-|[]]]]; vm_compute; eauto. }
  destruct (team_scope_blank_or_not "  " true
              (AvaliacaoEquipe.mkEstado [] true None) Exemplos.banco Hfe Hfr)
    as (_ & _ & _ & Hblank & _).
  destruct (team_scope_blank_or_not "e1" false
              (AvaliacaoEquipe.mkEstado [] true None) Exemplos.banco Hfe Hfr)
    as (_ & _ & _ & _ & Hteam).
  assert (AvaliacaoEquipe.em_branco "  ") as Hb by repeat constructor.
  split; [|split; [|split]].
  - apply Hblank, Hb.
  - apply Hteam. intros H. apply Forall_cons in H as [H _]. discriminate H.
  - reflexivity.
  - destruct (Hblank Hb) as (Hl & _). rewrite Hl. reflexivity.
Defined.

(** ** Submitting to the queue *)

(** Reads the fields of a component given by its constructor. *)
Ltac projecoes :=
  cbn [Fila.equipeId Fila.rodadaAtual Fila.pizzas Fila.saborSelecionado
       Fila.limitePizzasRodada Fila.isActive Fila.timeRemaining].

Section Envio.
Import Fila.
Variables (equipeId sabor : string) (r : Rodada.t) (limite : Z)
          (timeRemaining : Z).
Hypothesis Hativa : Rodada.status r = Ativa.
Hypothesis Htempo : 0 < timeRemaining.
Hypothesis Hsabor : sabor ≠ "".

Let rid := Some (Rodada.id r).

Lemma podeEnviarPizza_ativa : podeEnviarPizza (Some r) true timeRemaining = true.
Proof.
  unfold podeEnviarPizza.
  rewrite bool_decide_eq_false_2 by (rewrite Hativa; intros H; apply H; reflexivity).
  simpl. rewrite bool_decide_eq_false_2 by lia. reflexivity.
Qed.

(** One submission while the round accepts: sent below the limit,
    refused at the limit. *)
Lemma enviar_abaixo_do_limite novoId agora db :
  Z.of_nat (length (usePizzas equipeId rid db)) < limite →
  (handleEnviarPizza (componente equipeId r sabor limite true timeRemaining db)
     false novoId agora db).1
  = (Enviada, marcarPizzaPronta novoId agora equipeId (Rodada.id r) sabor db).
Proof.
  intros Hlt. unfold handleEnviarPizza, componente. projecoes.
  rewrite bool_decide_eq_false_2 by exact Hsabor.
  rewrite podeEnviarPizza_ativa. cbn [negb].
  unfold verificarLimitePizzas. fold rid.
  rewrite bool_decide_eq_false_2 by lia. reflexivity.
Qed.

Lemma enviar_no_limite novoId agora db :
  limite ≤ Z.of_nat (length (usePizzas equipeId rid db)) →
  handleEnviarPizza (componente equipeId r sabor limite true timeRemaining db)
    false novoId agora db
  = (LimiteAtingido, db, [ToastLimiteAtingido limite]).
Proof.
  intros Hle. unfold handleEnviarPizza, componente. projecoes.
  rewrite bool_decide_eq_false_2 by exact Hsabor.
  rewrite podeEnviarPizza_ativa. cbn [negb].
  unfold verificarLimitePizzas. fold rid.
  rewrite bool_decide_eq_true_2 by lia. reflexivity.
Qed.

(** The item sent counts at once. *)
Lemma usePizzas_marcar novoId agora db :
  usePizzas equipeId rid (marcarPizzaPronta novoId agora equipeId (Rodada.id r) sabor db)
  = usePizzas equipeId rid db
    ++ [Pizza.mk novoId equipeId (Rodada.id r) (Some sabor)
                 Pronta None None None agora agora].
Proof.
  unfold usePizzas, marcarPizzaPronta. simpl. rewrite filter_app. f_equal.
  rewrite filter_cons_True by (split; reflexivity). reflexivity.
Qed.

Lemma enviarVarias_abaixo envios :
  ∀ db,
    Z.of_nat (length (usePizzas equipeId rid db)) + Z.of_nat (length envios) ≤ limite →
    let res := enviarVarias equipeId r sabor limite true timeRemaining envios db in
    res.1 = replicate (length envios) Enviada
    ∧ length (usePizzas equipeId rid res.2)
      = (length (usePizzas equipeId rid db) + length envios)%nat.
Proof.
  induction envios as [|[novoId agora] envios IH]; intros db Hle.
  - simpl. split; [reflexivity|lia].
  - cbn [enviarVarias].
    pose proof (enviar_abaixo_do_limite novoId agora db) as Hs.
    destruct (handleEnviarPizza _ false novoId agora db) as [[d db1] ev].
    simpl in Hs. rewrite length_cons in Hle.
    injection (Hs ltac:(lia)) as -> ->.
    specialize (IH (marcarPizzaPronta novoId agora equipeId (Rodada.id r) sabor db)).
    rewrite usePizzas_marcar, length_app in IH. simpl in IH.
    destruct (IH ltac:(lia)) as [IH1 IH2].
    destruct (enviarVarias _ _ _ _ _ _ envios _) as [ds db2]. simpl in *.
    rewrite IH1, IH2. split; [reflexivity|lia].
Qed.

Lemma enviarVarias_app envios1 envios2 :
  ∀ db,
    let res1 := enviarVarias equipeId r sabor limite true timeRemaining envios1 db in
    let res2 := enviarVarias equipeId r sabor limite true timeRemaining envios2 res1.2 in
    enviarVarias equipeId r sabor limite true timeRemaining (envios1 ++ envios2) db
    = (res1.1 ++ res2.1, res2.2).
Proof.
  induction envios1 as [|[novoId agora] envios1 IH]; intros db.
  - simpl. destruct (enviarVarias _ _ _ _ _ _ envios2 db). reflexivity.
  - cbn [enviarVarias app].
    destruct (handleEnviarPizza _ false novoId agora db) as [[d db1] ev].
    rewrite IH. simpl.
    destruct (enviarVarias _ _ _ _ _ _ envios1 db1) as [ds1 db2]. simpl.
    destruct (enviarVarias _ _ _ _ _ _ envios2 db2) as [ds2 db3]. reflexivity.
Qed.
End Envio.

(** The count the limit is checked against does not depend on the columns
    an evaluation writes. *)
Lemma contagem_preservada equipeId rodadaId (f : Pizza.t → Pizza.t) (l : list Pizza.t) :
  (∀ p, Pizza.equipe_id (f p) = Pizza.equipe_id p
        ∧ Pizza.rodada_id (f p) = Pizza.rodada_id p) →
  length (filter (Fila.daEquipeNaRodada equipeId rodadaId) (f <$> l))
  = length (filter (Fila.daEquipeNaRodada equipeId rodadaId) l).
Proof.
  intros Hf. induction l as [|p l IH]; [reflexivity|].
  rewrite fmap_cons, !filter_cons.
  assert (Fila.daEquipeNaRodada equipeId rodadaId (f p)
          ↔ Fila.daEquipeNaRodada equipeId rodadaId p) as Hiff.
  { unfold Fila.daEquipeNaRodada. destruct (Hf p) as [-> ->]. reflexivity. }
  destruct (decide (Fila.daEquipeNaRodada equipeId rodadaId p)) as [Hp|Hp].
  - rewrite decide_True by (apply Hiff; exact Hp). simpl. rewrite IH. reflexivity.
  - rewrite decide_False by (rewrite Hiff; exact Hp). exact IH.
Qed.

(** C5. While the round accepts items (active, time left, a flavour
    chosen), a team that has no item in the round and a limit of L sends L
    items one after the other and each is accepted; the next one is refused
    with the limit message and creates nothing. The count the limit is
    checked against is the number of items the team created in the round:
    it is the same after any of them is approved or rejected by the
    evaluator, and after the automatic rejection. *)
Theorem quota_enforced
    (equipeId sabor : string) (r : Rodada.t) (limite : nat) (timeRemaining : Z)
    (envios : list (string * Z)) (ultimo : string * Z) (db : Banco.t)
    (Hativa : Rodada.status r = Ativa)
    (Htempo : 0 < timeRemaining)
    (Hsabor : sabor ≠ "")
    (Hvazio : Fila.usePizzas equipeId (Some (Rodada.id r)) db = [])
    (Hn : length envios = limite) :
  let res := Fila.enviarVarias equipeId r sabor (Z.of_nat limite) true
               timeRemaining (envios ++ [ultimo]) db in
  res.1 = replicate limite Fila.Enviada ++ [Fila.LimiteAtingido]
  ∧ length (Fila.usePizzas equipeId (Some (Rodada.id r)) res.2) = limite
  ∧ (∀ rodadaId agora pizzaId resultado justificativa st st' db0 db1 ev,
       Avaliacao.avaliarPizza false agora pizzaId resultado justificativa st db0
       = inl (st', db1, ev) →
       length (Fila.usePizzas equipeId rodadaId db1)
       = length (Fila.usePizzas equipeId rodadaId db0))
  ∧ (∀ rodadaId se ue agora finalizada db0,
       length (Fila.usePizzas equipeId rodadaId
                 (Rejeicao.reprovarPizzasNaoAvaliadas se ue agora finalizada db0).1)
       = length (Fila.usePizzas equipeId rodadaId db0)).
Proof.
  intros res.
  pose proof (enviarVarias_app equipeId sabor r (Z.of_nat limite) timeRemaining
                envios [ultimo] db) as Happ.
  pose proof (enviarVarias_abaixo equipeId sabor r (Z.of_nat limite) timeRemaining
                Hativa Htempo Hsabor envios db) as Hab.
  rewrite Hvazio in Hab. simpl in Hab, Happ.
  destruct (Hab ltac:(lia)) as [Hds Hlen]. clear Hab.
  subst res. rewrite Happ. clear Happ.
  destruct (Fila.enviarVarias _ _ _ _ _ _ envios db) as [ds db1].
  simpl in Hds, Hlen. simpl. destruct ultimo as [novoId agora].
  rewrite (enviar_no_limite equipeId sabor r (Z.of_nat limite) timeRemaining
             Hativa Htempo Hsabor novoId agora db1) by lia.
  simpl. rewrite Hds, Hn. split; [reflexivity|]. split; [lia|]. split.
  - intros rodadaId agora' pizzaId resultado justificativa st st' db0 db2 ev H.
    unfold Avaliacao.avaliarPizza in H. injection H as _ <- _.
    unfold Fila.usePizzas. simpl. apply contagem_preservada.
    intros p. destruct (decide (Pizza.id p = pizzaId)); split; reflexivity.
  - intros rodadaId se ue agora' finalizada db0.
    unfold Rejeicao.reprovarPizzasNaoAvaliadas, Fila.usePizzas.
    destruct se; [reflexivity|]. case_bool_decide; [reflexivity|].
    destruct ue; [reflexivity|]. simpl. apply contagem_preservada.
    intros p. unfold Rejeicao.reprovar_se_pendente.
    destruct (decide (Rejeicao.pendenteDaRodada finalizada p)); split; reflexivity.
Qed.

Lemma quota_enforced_witness :
  (Fila.enviarVarias "e3" Exemplos.rodadaAtiva "s1" 2 true 120
     [("n1", 5000); ("n2", 6000); ("n3", 7000)] Exemplos.banco).1
  = [Fila.Enviada; Fila.Enviada; Fila.LimiteAtingido].
Proof.
  destruct (quota_enforced "e3" "s1" Exemplos.rodadaAtiva 2 120
              [("n1", 5000); ("n2", 6000)] ("n3", 7000) Exemplos.banco
              eq_refl eq_refl ltac:(discriminate) eq_refl eq_refl) as (H & _).
  exact H.
Defined.

(** C6. With a round at hand and a flavour chosen: the submission is
    refused with the time-is-over message, and the store is left as it is,
    whenever the round is not active or the timer reports no time left;
    when the round is active, the timer reports it active with time left
    and the team is below its limit, the submission creates one item, in
    ready status and with no result, for that team, round and flavour. *)
Theorem submit_round_gate
    (c : Fila.Componente) (r : Rodada.t) (erroEnvio : bool)
    (novoId : string) (agora : Z) (db : Banco.t)
    (Hr : Fila.rodadaAtual c = Some r)
    (Hsabor : Fila.saborSelecionado c ≠ "") :
  (Rodada.status r ≠ Ativa ∨ Fila.timeRemaining c ≤ 0 →
     Fila.handleEnviarPizza c erroEnvio novoId agora db
     = (Fila.TempoEsgotado, db,
        [ToastError "⏰ Tempo esgotado! Não é possível enviar pizzas. Aguarde a próxima rodada."]))
  ∧ (Rodada.status r = Ativa →
     Fila.isActive c = true →
     0 < Fila.timeRemaining c →
     Z.of_nat (length (Fila.pizzas c)) < Fila.limitePizzasRodada c →
     ∃ db' ev nova,
       Fila.handleEnviarPizza c false novoId agora db = (Fila.Enviada, db', ev)
       ∧ Banco.pizzas db' = Banco.pizzas db ++ [nova]
       ∧ Pizza.status nova = Pronta
       ∧ Pizza.resultado nova = None
       ∧ Pizza.equipe_id nova = Fila.equipeId c
       ∧ Pizza.rodada_id nova = Rodada.id r
       ∧ Pizza.sabor_id nova = Some (Fila.saborSelecionado c)).
Proof.
  split.
  - intros Hgate. unfold Fila.handleEnviarPizza. rewrite Hr.
    rewrite bool_decide_eq_false_2 by exact Hsabor.
    assert (Fila.podeEnviarPizza (Some r) (Fila.isActive c) (Fila.timeRemaining c)
            = false) as ->; [|reflexivity].
    unfold Fila.podeEnviarPizza. case_bool_decide as Hst; [reflexivity|].
    destruct Hgate as [Hna|Hle]; [contradiction|].
    rewrite (bool_decide_eq_true_2 _ Hle). rewrite orb_true_r. reflexivity.
  - intros Hst Hact Htempo Hlim. unfold Fila.handleEnviarPizza. rewrite Hr.
    rewrite bool_decide_eq_false_2 by exact Hsabor.
    assert (Fila.podeEnviarPizza (Some r) (Fila.isActive c) (Fila.timeRemaining c)
            = true) as ->.
    { unfold Fila.podeEnviarPizza.
      rewrite bool_decide_eq_false_2 by (rewrite Hst; intros H; apply H; reflexivity).
      rewrite Hact. simpl. rewrite bool_decide_eq_false_2 by lia. reflexivity. }
    cbn [negb]. unfold Fila.verificarLimitePizzas.
    rewrite bool_decide_eq_false_2 by lia.
    eexists _, _, _. split; [reflexivity|]. simpl. repeat split; reflexivity.
Qed.

Lemma submit_round_gate_witness :
  (Fila.handleEnviarPizza
     (Fila.componente "e1" Exemplos.rodadaFinalizada "s1" 5 false 0 Exemplos.banco)
     false "n1" 400000 Exemplos.banco).1
  = (Fila.TempoEsgotado, Exemplos.banco).
Proof.
  destruct (submit_round_gate
              (Fila.componente "e1" Exemplos.rodadaFinalizada "s1" 5 false 0
                 Exemplos.banco)
              Exemplos.rodadaFinalizada false "n1" 400000 Exemplos.banco
              eq_refl ltac:(discriminate)) as (H & _).
  rewrite H; [reflexivity|]. left. discriminate.
Defined.


(** * Further properties *)

#[local] Set Warnings "-clear-no-such-hyp".

(** ** The countdown *)

Lemma calcular_finalizada r fim agora :
  Rodada.status r = Finalizada →
  Rodada.finalizou_em r = Some fim →
  Relogio.calcularTempoRestante (Some r) agora
  = Some (Relogio.remaining_spec fim Relogio.TEMPO_ADICIONAL_SEGUNDOS agora).
Proof.
  intros Hfin Hfim. unfold Relogio.calcularTempoRestante. rewrite Hfin, Hfim.
  rewrite bool_decide_eq_false_2 by (intros H; apply H; reflexivity).
  rewrite <- remaining_spec_of_max.
  case_bool_decide as Hle; [rewrite Z.max_l by lia|rewrite Z.max_r by lia];
    reflexivity.
Qed.

Lemma timer_ativa r inicio agora :
  Rodada.status r = Ativa →
  Rodada.iniciou_em r = Some inicio →
  fst <$> Relogio.timerRodada (Some r) agora
  = Some (Relogio.remaining_spec inicio (Rodada.tempo_limite r) agora).
Proof.
  intros Hat Hini. unfold Relogio.timerRodada, Relogio.updateTimer.
  rewrite Hat, Hini.
  rewrite bool_decide_eq_false_2 by (intros H; apply H; reflexivity).
  simpl. rewrite <- remaining_spec_of_max. do 3 f_equal. lia.
Qed.

Lemma remaining_spec_nonneg anchor limit agora :
  0 ≤ Relogio.remaining_spec anchor limit agora.
Proof. unfold Relogio.remaining_spec. lia. Qed.

Lemma remaining_spec_le_limit anchor limit agora :
  anchor ≤ agora → 0 ≤ limit →
  Relogio.remaining_spec anchor limit agora ≤ limit.
Proof. intros Ha Hl. apply remaining_spec_least; lia. Qed.

Lemma remaining_spec_mono anchor limit agora agora' :
  agora ≤ agora' →
  Relogio.remaining_spec anchor limit agora'
  ≤ Relogio.remaining_spec anchor limit agora.
Proof.
  intros Hle. apply remaining_spec_least; [apply remaining_spec_nonneg|].
  pose proof (proj1 (remaining_spec_least anchor limit agora
                       (Relogio.remaining_spec anchor limit agora)
                       (remaining_spec_nonneg _ _ _)) ltac:(lia)).
  lia.
Qed.

Lemma ceil_div_step a : Relogio.ceil_div (a - 1000) 1000 = Relogio.ceil_div a 1000 - 1.
Proof.
  unfold Relogio.ceil_div.
  replace (- (a - 1000)) with (- a + 1 * 1000) by lia.
  rewrite Z.div_add by lia. lia.
Qed.

Lemma remaining_spec_step anchor limit agora :
  0 < Relogio.remaining_spec anchor limit agora →
  Relogio.remaining_spec anchor limit (agora + 1000)
  = Relogio.remaining_spec anchor limit agora - 1.
Proof.
  unfold Relogio.remaining_spec. intros Hpos.
  replace (anchor + limit * 1000 - (agora + 1000))
    with (anchor + limit * 1000 - agora - 1000) by lia.
  rewrite ceil_div_step. lia.
Qed.

(** X1. Once the anchor instant is reached the countdown stays within its
    limit: the evaluation countdown of a finished round is between 0 and
    60, the countdown of an active round between 0 and its time limit. *)
Theorem countdown_within_limit
    (rf ra : Rodada.t) (fim inicio agora : Z)
    (Hfin : Rodada.status rf = Finalizada)
    (Hfim : Rodada.finalizou_em rf = Some fim)
    (Hat : Rodada.status ra = Ativa)
    (Hini : Rodada.iniciou_em ra = Some inicio)
    (Hlim : 0 ≤ Rodada.tempo_limite ra)
    (Hf : fim ≤ agora) (Hi : inicio ≤ agora) :
  (∃ k, Relogio.calcularTempoRestante (Some rf) agora = Some k ∧ 0 ≤ k ≤ 60)
  ∧ (∃ k, (fst <$> Relogio.timerRodada (Some ra) agora) = Some k
          ∧ 0 ≤ k ≤ Rodada.tempo_limite ra).
Proof.
  split.
  - eexists. split; [apply calcular_finalizada; eassumption|].
    split; [apply remaining_spec_nonneg|].
    apply (remaining_spec_le_limit fim 60 agora); lia.
  - eexists. split; [apply timer_ativa; eassumption|].
    split; [apply remaining_spec_nonneg|].
    apply remaining_spec_le_limit; assumption.
Qed.

Lemma countdown_within_limit_witness :
  ∃ k, Relogio.calcularTempoRestante (Some Exemplos.rodadaFinalizada) 300001
       = Some k ∧ 0 ≤ k ≤ 60.
Proof.
  destruct (countdown_within_limit Exemplos.rodadaFinalizada Exemplos.rodadaAtiva
              300000 1000 300001 eq_refl eq_refl eq_refl eq_refl
              ltac:(vm_compute; discriminate) ltac:(lia) ltac:(lia)) as [H _].
  exact H.
Defined.

(** X2. The countdown never goes up as the clock advances, for the
    evaluation countdown and for the round countdown alike. *)
Theorem countdown_monotone
    (rf ra : Rodada.t) (fim inicio agora agora' : Z)
    (Hfin : Rodada.status rf = Finalizada)
    (Hfim : Rodada.finalizou_em rf = Some fim)
    (Hat : Rodada.status ra = Ativa)
    (Hini : Rodada.iniciou_em ra = Some inicio)
    (Hle : agora ≤ agora') :
  (∃ k k', Relogio.calcularTempoRestante (Some rf) agora = Some k
           ∧ Relogio.calcularTempoRestante (Some rf) agora' = Some k'
           ∧ k' ≤ k)
  ∧ (∃ k k', (fst <$> Relogio.timerRodada (Some ra) agora) = Some k
             ∧ (fst <$> Relogio.timerRodada (Some ra) agora') = Some k'
             ∧ k' ≤ k).
Proof.
  split; eexists _, _.
  - split; [apply calcular_finalizada; eassumption|].
    split; [apply calcular_finalizada; eassumption|].
    apply remaining_spec_mono, Hle.
  - split; [apply timer_ativa; eassumption|].
    split; [apply timer_ativa; eassumption|].
    apply remaining_spec_mono, Hle.
Qed.

Lemma countdown_monotone_witness :
  ∃ k k', (fst <$> Relogio.timerRodada (Some Exemplos.rodadaAtiva) 2000) = Some k
          ∧ (fst <$> Relogio.timerRodada (Some Exemplos.rodadaAtiva) 2500) = Some k'
          ∧ k' ≤ k.
Proof.
  destruct (countdown_monotone Exemplos.rodadaFinalizada Exemplos.rodadaAtiva
              300000 1000 2000 2500 eq_refl eq_refl eq_refl eq_refl
              ltac:(lia)) as [_ H].
  exact H.
Defined.

(** X3. While time is left, a tick one second later shows exactly one
    second less. *)
Theorem countdown_one_second_step
    (rf ra : Rodada.t) (fim inicio agora kf ka : Z)
    (Hfin : Rodada.status rf = Finalizada)
    (Hfim : Rodada.finalizou_em rf = Some fim)
    (Hat : Rodada.status ra = Ativa)
    (Hini : Rodada.iniciou_em ra = Some inicio)
    (Hkf : Relogio.calcularTempoRestante (Some rf) agora = Some kf)
    (Hka : (fst <$> Relogio.timerRodada (Some ra) agora) = Some ka)
    (Hposf : 0 < kf) (Hposa : 0 < ka) :
  Relogio.calcularTempoRestante (Some rf) (agora + 1000) = Some (kf - 1)
  ∧ (fst <$> Relogio.timerRodada (Some ra) (agora + 1000)) = Some (ka - 1).
Proof.
  rewrite (calcular_finalizada rf fim agora Hfin Hfim) in Hkf.
  rewrite (timer_ativa ra inicio agora Hat Hini) in Hka.
  injection Hkf as <-. injection Hka as <-.
  rewrite (calcular_finalizada rf fim _ Hfin Hfim).
  rewrite (timer_ativa ra inicio _ Hat Hini).
  rewrite !remaining_spec_step by assumption. split; reflexivity.
Qed.

Lemma countdown_one_second_step_witness :
  Relogio.calcularTempoRestante (Some Exemplos.rodadaFinalizada) 3000 = Some 357
  ∧ (fst <$> Relogio.timerRodada (Some Exemplos.rodadaAtiva) 3000) = Some 298.
Proof.
  exact (countdown_one_second_step Exemplos.rodadaFinalizada Exemplos.rodadaAtiva
           300000 1000 2000 358 299 eq_refl eq_refl eq_refl eq_refl
           eq_refl eq_refl ltac:(lia) ltac:(lia)).
Defined.

(** ** Schedules of the rejector hook *)

Lemma prazo_Some r lim :
  Prazo.prazo r = Some lim →
  Rodada.status r = Finalizada
  ∧ ∃ fim, Rodada.finalizou_em r = Some fim
           ∧ lim = fim + Relogio.TEMPO_ADICIONAL_SEGUNDOS * 1000.
Proof.
  unfold Prazo.prazo. case_bool_decide as Hst; [|discriminate].
  destruct (Rodada.finalizou_em r) as [fim|]; [|discriminate].
  simpl. intros H. injection H as <-. eauto.
Qed.

Lemma calcular_antes_do_prazo r lim agora :
  Prazo.prazo r = Some lim → agora < lim →
  ∃ k, Relogio.calcularTempoRestante (Some r) agora = Some k ∧ 0 < k.
Proof.
  intros Hp Hlt. apply prazo_Some in Hp as (Hfin & fim & Hfim & ->).
  eexists. split; [apply calcular_finalizada; eassumption|].
  unfold Relogio.remaining_spec.
  pose proof (ceil_div_pos (fim + Relogio.TEMPO_ADICIONAL_SEGUNDOS * 1000 - agora)
                ltac:(lia)). lia.
Qed.

Lemma calcular_depois_do_prazo r lim agora :
  Prazo.prazo r = Some lim → lim ≤ agora →
  Relogio.calcularTempoRestante (Some r) agora = Some 0.
Proof.
  intros Hp Hle. apply prazo_Some in Hp as (Hfin & fim & Hfim & ->).
  rewrite (calcular_finalizada r fim agora Hfin Hfim). f_equal.
  unfold Relogio.remaining_spec.
  pose proof (ceil_div_nonpos (fim + Relogio.TEMPO_ADICIONAL_SEGUNDOS * 1000 - agora)
                ltac:(lia)). lia.
Qed.

Lemma executar_app acoes1 :
  ∀ acoes2 st db,
    Rejeicao.executar (acoes1 ++ acoes2) st db
    = let '(st1, db1, ev1) := Rejeicao.executar acoes1 st db in
      let '(st2, db2, ev2) := Rejeicao.executar acoes2 st1 db1 in
      (st2, db2, ev1 ++ ev2).
Proof.
  induction acoes1 as [|a acoes1 IH]; intros acoes2 st db.
  - simpl. destruct (Rejeicao.executar acoes2 st db) as [[st2 db2] ev2].
    reflexivity.
  - cbn [app Rejeicao.executar].
    destruct (Rejeicao.passo a st db) as [[st1 db1] ev1].
    rewrite IH.
    destruct (Rejeicao.executar acoes1 st1 db1) as [[st2 db2] ev2].
    destruct (Rejeicao.executar acoes2 st2 db2) as [[st3 db3] ev3].
    rewrite app_assoc. reflexivity.
Qed.

Lemma passo_prematuro T a st db :
  Prazo.prematura T a → Prazo.armado_depois T st →
  ∃ st', Rejeicao.passo a st db = (st', db, [])
         ∧ Prazo.armado_depois T st'
         ∧ Rejeicao.tempoAdicionalProcessadoRef st'
           = Rejeicao.tempoAdicionalProcessadoRef st.
Proof.
  intros Ha Hinv.
  destruct a as [r se ue t|se ue t]; cbn [Rejeicao.passo Prazo.prematura] in *.
  - destruct Ha as [Ht Hr]. unfold Rejeicao.efeitoPrincipal.
    case_bool_decide as Hst.
    { eexists. split; [reflexivity|]. split; [|reflexivity]. intros r' H. discriminate H. }
    case_bool_decide as Hproc.
    { eexists. split; [reflexivity|]. split; [|reflexivity]. intros r' H. discriminate H. }
    destruct (Rodada.finalizou_em r) as [fim|] eqn:Hfim.
    + assert (Prazo.prazo r = Some (fim + Relogio.TEMPO_ADICIONAL_SEGUNDOS * 1000))
        as Hp.
      { unfold Prazo.prazo. rewrite bool_decide_eq_true_2 by exact Hst.
        rewrite Hfim. reflexivity. }
      destruct (calcular_antes_do_prazo r _ t Hp ltac:(specialize (Hr _ Hp); lia))
        as (k & -> & Hk).
      rewrite bool_decide_eq_false_2 by lia.
      eexists. split; [reflexivity|]. split; [|reflexivity].
      intros r' H. simpl in H. injection H as <-. eauto.
    + unfold Relogio.calcularTempoRestante. rewrite Hst, Hfim.
      rewrite bool_decide_eq_false_2 by (intros H; apply H; reflexivity).
      eexists. split; [reflexivity|]. split; [|reflexivity].
      intros r' H. discriminate H.
  - unfold Rejeicao.tick.
    destruct (Rejeicao.intervalRef st) as [r|] eqn:Hint.
    + destruct (Hinv r Hint) as (lim & Hp & Hlim).
      destruct (calcular_antes_do_prazo r lim t Hp ltac:(lia)) as (k & -> & Hk).
      rewrite bool_decide_eq_false_2 by lia.
      eexists. split; [reflexivity|]. split; [|reflexivity].
      intros r' H. simpl in H. try rewrite Hint in H. injection H as <-. eauto.
    + exists st. split; [reflexivity|]. split; [|reflexivity].
      intros r' H. rewrite Hint in H. discriminate H.
Qed.

(** X4. The rejector never runs early. Along any run of effect runs and
    ticks that happen no later than an instant [T], the effect runs being
    for rounds that are unfinished or whose additional time ends after [T],
    the hook leaves the store as it is, notifies nobody and marks no round
    as processed. *)
Theorem rejector_never_early
    (T : Z) (acoes : list Rejeicao.Acao) (st : Rejeicao.Estado) (db : Banco.t)
    (Hinv : Prazo.armado_depois T st)
    (Hall : Forall (Prazo.prematura T) acoes) :
  ∃ st', Rejeicao.executar acoes st db = (st', db, [])
         ∧ Rejeicao.tempoAdicionalProcessadoRef st'
           = Rejeicao.tempoAdicionalProcessadoRef st.
Proof.
  revert st Hinv. induction Hall as [|a acoes Ha Hall IH]; intros st Hinv.
  - exists st. auto.
  - destruct (passo_prematuro T a st db Ha Hinv) as (st1 & Hp & Hinv1 & Hproc1).
    destruct (IH st1 Hinv1) as (st2 & He & Hproc2).
    exists st2. simpl. rewrite Hp, He. split; [reflexivity|]. congruence.
Qed.

Lemma rejector_never_early_witness :
  (Rejeicao.executar
     [ Rejeicao.Efeito Exemplos.rodadaAtiva false false 2000;
       Rejeicao.Efeito Exemplos.rodadaFinalizada false false 310000;
       Rejeicao.Tick false false 311000;
       Rejeicao.Tick false false 359999 ]
     Rejeicao.inicial Exemplos.banco).1.2 = Exemplos.banco.
Proof.
  assert (Prazo.armado_depois 359999 Rejeicao.inicial) as Hinv
    by (intros r H; discriminate H).
  assert (Forall (Prazo.prematura 359999)
            [ Rejeicao.Efeito Exemplos.rodadaAtiva false false 2000;
              Rejeicao.Efeito Exemplos.rodadaFinalizada false false 310000;
              Rejeicao.Tick false false 311000;
              Rejeicao.Tick false false 359999 ]) as Hall.
  { repeat constructor; simpl; try lia.
    - intros fim H. discriminate H.
    - intros fim H. vm_compute in H. injection H as <-. lia. }
  destruct (rejector_never_early 359999 _ Rejeicao.inicial Exemplos.banco Hinv Hall)
    as (st' & He & _).
  rewrite He. reflexivity.
Defined.

Lemma passo_antecipado r lim a st db :
  Prazo.prazo r = Some lim →
  Prazo.antecipada r lim a →
  Rodada.id r ∉ Rejeicao.tempoAdicionalProcessadoRef st →
  Rejeicao.intervalRef st = Some r →
  ∃ st', Rejeicao.passo a st db = (st', db, [])
         ∧ (Rodada.id r ∉ Rejeicao.tempoAdicionalProcessadoRef st')
         ∧ Rejeicao.intervalRef st' = Some r.
Proof.
  intros Hp Ha Hproc Hint. pose proof (prazo_Some r lim Hp) as (Hfin & _).
  destruct a as [r' se ue t|se ue t]; cbn [Rejeicao.passo Prazo.antecipada] in *.
  - destruct Ha as [-> Ht]. unfold Rejeicao.efeitoPrincipal.
    rewrite bool_decide_eq_false_2 by (rewrite Hfin; intros H; apply H; reflexivity).
    rewrite bool_decide_eq_false_2 by exact Hproc.
    destruct (calcular_antes_do_prazo r lim t Hp Ht) as (k & -> & Hk).
    rewrite bool_decide_eq_false_2 by lia.
    eexists. split; [reflexivity|]. simpl. auto.
  - unfold Rejeicao.tick. rewrite Hint.
    destruct (calcular_antes_do_prazo r lim t Hp Ha) as (k & -> & Hk).
    rewrite bool_decide_eq_false_2 by lia.
    eexists. split; [reflexivity|]. simpl. auto.
Qed.

Lemma executar_antecipadas r lim acoes :
  Prazo.prazo r = Some lim →
  Forall (Prazo.antecipada r lim) acoes →
  ∀ st db,
    Rodada.id r ∉ Rejeicao.tempoAdicionalProcessadoRef st →
    Rejeicao.intervalRef st = Some r →
    ∃ st', Rejeicao.executar acoes st db = (st', db, [])
           ∧ (Rodada.id r ∉ Rejeicao.tempoAdicionalProcessadoRef st')
           ∧ Rejeicao.intervalRef st' = Some r.
Proof.
  intros Hp Hall. induction Hall as [|a acoes Ha Hall IH]; intros st db Hproc Hint.
  - exists st. auto.
  - destruct (passo_antecipado r lim a st db Hp Ha Hproc Hint)
      as (st1 & Hs & Hproc1 & Hint1).
    destruct (IH st1 db Hproc1 Hint1) as (st2 & He & Hproc2 & Hint2).
    exists st2. simpl. rewrite Hs, He. auto.
Qed.

(** The schedule of one hook: an effect run inside the additional time,
    actions inside it, the first tick past it, then anything for the
    round. *)
Lemma executar_agenda
    (r : Rodada.t) (lim t0 tarde : Z) (se0 ue0 se ue : bool)
    (cedo depois : list Rejeicao.Acao) (st : Rejeicao.Estado) (db : Banco.t)
    (Hp : Prazo.prazo r = Some lim)
    (Hproc : Rodada.id r ∉ Rejeicao.tempoAdicionalProcessadoRef st)
    (Ht0 : t0 < lim)
    (Hcedo : Forall (Prazo.antecipada r lim) cedo)
    (Htarde : lim ≤ tarde)
    (Hdepois : Forall (Rejeicao.sobre_rodada (Rodada.id r)) depois) :
  let res := Rejeicao.executar
               (Rejeicao.Efeito r se0 ue0 t0 :: cedo
                ++ Rejeicao.Tick se ue tarde :: depois) st db in
  let unica := Rejeicao.reprovarPizzasNaoAvaliadas se ue tarde (Rodada.id r) db in
  res.1.2 = unica.1 ∧ res.2 = unica.2.
Proof.
  intros res unica. pose proof (prazo_Some r lim Hp) as (Hfin & _).
  assert (∃ stf, res = (stf, unica.1, unica.2)) as (stf & ->);
    [|split; reflexivity].
  subst res. cbn [Rejeicao.executar Rejeicao.passo].
  (* the effect clears whatever interval was armed and arms its own *)
  unfold Rejeicao.efeitoPrincipal.
  rewrite bool_decide_eq_false_2 by (rewrite Hfin; intros H; apply H; reflexivity).
  rewrite bool_decide_eq_false_2 by exact Hproc.
  destruct (calcular_antes_do_prazo r lim t0 Hp Ht0) as (k & -> & Hk).
  rewrite bool_decide_eq_false_2 by lia.
  rewrite executar_app.
  destruct (executar_antecipadas r lim cedo Hp Hcedo
              (Rejeicao.mkEstado (Some k) true (Some r)
                 (Rejeicao.tempoAdicionalProcessadoRef st)) db Hproc eq_refl)
    as (st1 & -> & Hproc1 & Hint1).
  cbn [Rejeicao.executar Rejeicao.passo]. unfold Rejeicao.tick.
  rewrite Hint1, (calcular_depois_do_prazo r lim tarde Hp Htarde).
  rewrite bool_decide_eq_true_2 by lia.
  fold unica. destruct unica as [db1 ev1].
  destruct (executar_processado (Rodada.id r) depois
              (Rejeicao.mkEstado (Some 0) false None
                 ({[Rodada.id r]} ∪ Rejeicao.tempoAdicionalProcessadoRef st1))
              db1 ltac:(simpl; set_solver) eq_refl Hdepois) as (st2 & -> & _).
  exists st2. simpl. rewrite app_nil_r. reflexivity.
Qed.

(** X5. The hook rejects once, at the first tick past the additional
    time. After an effect run for a finished round inside its additional
    time, further effect runs for that round and ticks inside that time
    change nothing; the first tick at or past its end runs the rejector,
    once, at that instant; whatever effect runs for the round and ticks
    follow change nothing more. *)
Theorem rejector_fires_at_first_late_tick
    (r : Rodada.t) (lim t0 tarde : Z) (se0 ue0 se ue : bool)
    (cedo depois : list Rejeicao.Acao) (st : Rejeicao.Estado) (db : Banco.t)
    (Hp : Prazo.prazo r = Some lim)
    (Hproc : Rodada.id r ∉ Rejeicao.tempoAdicionalProcessadoRef st)
    (Ht0 : t0 < lim)
    (Hcedo : Forall (Prazo.antecipada r lim) cedo)
    (Htarde : lim ≤ tarde)
    (Hdepois : Forall (Rejeicao.sobre_rodada (Rodada.id r)) depois) :
  let res := Rejeicao.executar
               (Rejeicao.Efeito r se0 ue0 t0 :: cedo
                ++ Rejeicao.Tick se ue tarde :: depois) st db in
  let unica := Rejeicao.reprovarPizzasNaoAvaliadas se ue tarde (Rodada.id r) db in
  res.1.2 = unica.1 ∧ res.2 = unica.2.
Proof.
  exact (executar_agenda r lim t0 tarde se0 ue0 se ue cedo depois st db
           Hp Hproc Ht0 Hcedo Htarde Hdepois).
Qed.

Lemma rejector_fires_at_first_late_tick_witness :
  let res := Rejeicao.executar
               [ Rejeicao.Efeito Exemplos.rodadaFinalizada false false 310000;
                 Rejeicao.Tick false false 311000;
                 Rejeicao.Tick false false 360000;
                 Rejeicao.Tick false false 361000 ]
               Rejeicao.inicial Exemplos.banco in
  res.1.2
  = (Rejeicao.reprovarPizzasNaoAvaliadas false false 360000 "r1" Exemplos.banco).1.
Proof.
  assert (Forall (Prazo.antecipada Exemplos.rodadaFinalizada 360000)
            [Rejeicao.Tick false false 311000]) as Hcedo
    by (repeat constructor).
  assert (Forall (Rejeicao.sobre_rodada "r1") [Rejeicao.Tick false false 361000])
    as Hdepois by (repeat constructor).
  destruct (rejector_fires_at_first_late_tick Exemplos.rodadaFinalizada 360000
              310000 360000 false false false false _ _ Rejeicao.inicial
              Exemplos.banco eq_refl ltac:(simpl; set_solver) ltac:(lia)
              Hcedo ltac:(lia) Hdepois) as [H _].
  exact H.
Defined.

(** ** What the two evaluations keep *)

Lemma avaliarPizza_linhas agora pizzaId resultado justificativa st db st' db' ev :
  Avaliacao.avaliarPizza false agora pizzaId resultado justificativa st db
  = inl (st', db', ev) →
  db' = Banco.com_pizzas
          ((λ p, if decide (Pizza.id p = pizzaId)
                 then Avaliacao.avaliar_linha agora resultado justificativa p
                 else p) <$> Banco.pizzas db) db
  ∧ Avaliacao.pizzas st'
    = filter (λ l, Pizza.id (Linha.pizza l) ≠ pizzaId) (Avaliacao.pizzas st).
Proof. unfold Avaliacao.avaliarPizza. intros H. injection H as <- <- _. auto. Qed.

(** Every outcome of the rejector is the store it was given or the bulk
    update of it. *)
Lemma reprovar_casos se ue agora rodadaId db :
  (Rejeicao.reprovarPizzasNaoAvaliadas se ue agora rodadaId db).1 = db
  ∨ (Rejeicao.reprovarPizzasNaoAvaliadas se ue agora rodadaId db).1
    = Banco.com_pizzas
        (Rejeicao.reprovar_se_pendente rodadaId agora <$> Banco.pizzas db) db.
Proof.
  unfold Rejeicao.reprovarPizzasNaoAvaliadas.
  destruct se; [left; reflexivity|]. case_bool_decide; [left; reflexivity|].
  destruct ue; [left; reflexivity|right; reflexivity].
Qed.

(** X6. The manual evaluation and the automatic rejection keep the table
    coherent: if every item carries a result exactly when it is evaluated,
    the same holds after either operation, whatever the store answers. *)
Theorem evaluations_keep_coherence
    (db : Banco.t) (Hc : Forall Invariantes.coerente (Banco.pizzas db)) :
  (∀ agora pizzaId resultado justificativa st st' db' ev,
     Avaliacao.avaliarPizza false agora pizzaId resultado justificativa st db
     = inl (st', db', ev) →
     Forall Invariantes.coerente (Banco.pizzas db'))
  ∧ (∀ se ue agora rodadaId,
       Forall Invariantes.coerente
         (Banco.pizzas (Rejeicao.reprovarPizzasNaoAvaliadas se ue agora rodadaId db).1)).
Proof.
  split.
  - intros agora pizzaId resultado justificativa st st' db' ev H.
    apply avaliarPizza_linhas in H as [-> _]. simpl.
    apply Forall_fmap. eapply Forall_impl; [exact Hc|]. intros p Hp. simpl.
    destruct (decide (Pizza.id p = pizzaId)); [|exact Hp].
    unfold Invariantes.coerente. simpl. split; [reflexivity|discriminate].
  - intros se ue agora rodadaId.
    destruct (reprovar_casos se ue agora rodadaId db) as [->| ->]; [exact Hc|].
    simpl. apply Forall_fmap. eapply Forall_impl; [exact Hc|]. intros p Hp. simpl.
    unfold Rejeicao.reprovar_se_pendente.
    destruct (decide (Rejeicao.pendenteDaRodada rodadaId p)); [|exact Hp].
    unfold Invariantes.coerente. simpl. split; [reflexivity|discriminate].
Qed.

Lemma evaluations_keep_coherence_witness :
  Forall Invariantes.coerente
    (Banco.pizzas
       (Rejeicao.reprovarPizzasNaoAvaliadas false false 400000 "r1" Exemplos.banco).1).
Proof.
  assert (Forall Invariantes.coerente (Banco.pizzas Exemplos.banco)) as Hc.
  { repeat constructor; simpl; try discriminate; intros H; try discriminate H;
      exfalso; apply H; reflexivity. }
  destruct (evaluations_keep_coherence Exemplos.banco Hc) as [_ H].
  apply H.
Defined.

(** X7. Neither evaluation adds, deletes or moves a row, nor rewrites the
    key, the team, the round, the flavour or the creation instant of one:
    the table has the same identifying columns, row by row, before and
    after. *)
Theorem evaluations_keep_rows (db : Banco.t) :
  (∀ agora pizzaId resultado justificativa st st' db' ev,
     Avaliacao.avaliarPizza false agora pizzaId resultado justificativa st db
     = inl (st', db', ev) →
     Invariantes.identidade <$> Banco.pizzas db'
     = Invariantes.identidade <$> Banco.pizzas db)
  ∧ (∀ se ue agora rodadaId,
       Invariantes.identidade
         <$> Banco.pizzas (Rejeicao.reprovarPizzasNaoAvaliadas se ue agora rodadaId db).1
       = Invariantes.identidade <$> Banco.pizzas db).
Proof.
  split.
  - intros agora pizzaId resultado justificativa st st' db' ev H.
    apply avaliarPizza_linhas in H as [-> _]. simpl.
    rewrite <- list_fmap_compose. apply list_fmap_ext. intros i p _. simpl.
    destruct (decide (Pizza.id p = pizzaId)); reflexivity.
  - intros se ue agora rodadaId.
    destruct (reprovar_casos se ue agora rodadaId db) as [->| ->]; [reflexivity|].
    simpl. rewrite <- list_fmap_compose. apply list_fmap_ext. intros i p _. simpl.
    unfold Rejeicao.reprovar_se_pendente.
    destruct (decide (Rejeicao.pendenteDaRodada rodadaId p)); reflexivity.
Qed.

(** ** Evaluating, then listing *)

Lemma juntar_pizza db p l : Avaliacao.juntar db p = Some l → Linha.pizza l = p.
Proof.
  unfold Avaliacao.juntar.
  destruct (Banco.equipe_de db (Pizza.equipe_id p)); [|discriminate].
  simpl. intros H. injection H as <-. reflexivity.
Qed.

(** Filtering the joined rows on a property of the item is joining the
    filtered items. *)
Lemma filter_omap_juntar db (Q : Pizza.t → Prop) `{∀ p, Decision (Q p)}
    (l : list Pizza.t) :
  filter (λ j, Q (Linha.pizza j)) (omap (Avaliacao.juntar db) l)
  = omap (Avaliacao.juntar db) (filter Q l).
Proof.
  induction l as [|p l IH]; [reflexivity|].
  rewrite omap_cons_eq, filter_cons.
  destruct (Avaliacao.juntar db p) as [j|] eqn:Hj.
  - pose proof (juntar_pizza db p j Hj) as Hp. rewrite filter_cons, Hp.
    destruct (decide (Q p)); [rewrite omap_cons_eq, Hj|]; rewrite IH; reflexivity.
  - destruct (decide (Q p)); [rewrite omap_cons_eq, Hj|]; exact IH.
Qed.

(** The ready, unevaluated rows after an update that takes the rows it
    writes out of that state. *)
Lemma filter_prontas_apos_update (C : Pizza.t → Prop) `{∀ p, Decision (C p)}
    (g : Pizza.t → Pizza.t) (l : list Pizza.t) :
  (∀ p, ¬ Avaliacao.prontaSemResultado (g p)) →
  filter Avaliacao.prontaSemResultado ((λ p, if decide (C p) then g p else p) <$> l)
  = filter (λ p, ¬ C p) (filter Avaliacao.prontaSemResultado l).
Proof.
  intros Hg. induction l as [|p l IH]; [reflexivity|].
  rewrite fmap_cons, (filter_cons _ p). destruct (decide (C p)) as [Hc|Hc].
  - rewrite filter_cons_False by apply Hg. rewrite IH.
    destruct (decide (Avaliacao.prontaSemResultado p)); [|reflexivity].
    rewrite filter_cons_False; [reflexivity|]. intros Hn. apply Hn, Hc.
  - rewrite filter_cons, IH.
    destruct (decide (Avaliacao.prontaSemResultado p)); [|reflexivity].
    rewrite filter_cons_True by exact Hc. reflexivity.
Qed.

Lemma StronglySorted_filter {A} (R : relation A) (P : A → Prop)
    `{∀ x, Decision (P x)} (l : list A) :
  StronglySorted R l → StronglySorted R (filter P l).
Proof.
  induction 1 as [|x l Hs IH Hall]; [constructor|].
  rewrite filter_cons. destruct (decide (P x)); [|exact IH].
  constructor; [exact IH|]. apply Forall_forall. intros y Hy.
  apply list_elem_of_filter in Hy as [_ Hy].
  rewrite Forall_forall in Hall. apply Hall, Hy.
Qed.

Lemma select_sorted db :
  StronglySorted Avaliacao.maisAntigaPrimeiro (Avaliacao.selectPizzasParaAvaliacao db).
Proof.
  unfold Avaliacao.selectPizzasParaAvaliacao.
  apply StronglySorted_merge_sort; apply _.
Qed.

(** The listing after an update of the table that writes the rows of [C]
    out of the ready state. *)
Lemma select_apos_update db (C : Pizza.t → Prop) `{∀ p, Decision (C p)}
    (g : Pizza.t → Pizza.t) :
  (∀ p, ¬ Avaliacao.prontaSemResultado (g p)) →
  Avaliacao.selectPizzasParaAvaliacao
    (Banco.com_pizzas ((λ p, if decide (C p) then g p else p) <$> Banco.pizzas db) db)
  ≡ₚ filter (λ j, ¬ C (Linha.pizza j)) (Avaliacao.selectPizzasParaAvaliacao db).
Proof.
  intros Hg. unfold Avaliacao.selectPizzasParaAvaliacao.
  rewrite !merge_sort_Permutation. cbn [Banco.pizzas Banco.com_pizzas].
  rewrite (filter_prontas_apos_update C g _ Hg).
  pose proof (filter_omap_juntar db (λ p, ¬ C p)
                (filter Avaliacao.prontaSemResultado (Banco.pizzas db))) as E.
  cbv beta in E. rewrite E. reflexivity.
Qed.

(** X8. Evaluating, then listing. After an evaluation that met no error
    the evaluator's query returns no row with the evaluated key; and when
    the hook's list was the query's answer before the call, the list the
    hook keeps (the evaluated item taken out) has the rows a new fetch
    would return, still oldest first. *)
Theorem evaluate_then_list
    (agora : Z) (pizzaId : string) (resultado : Resultado)
    (justificativa : option string)
    (st st' : Avaliacao.Estado) (db db' : Banco.t) (ev : list Evento)
    (Hok : Avaliacao.avaliarPizza false agora pizzaId resultado justificativa st db
           = inl (st', db', ev)) :
  (∀ j, j ∈ Avaliacao.selectPizzasParaAvaliacao db' →
        Pizza.id (Linha.pizza j) ≠ pizzaId)
  ∧ (Avaliacao.pizzas st = Avaliacao.selectPizzasParaAvaliacao db →
     Avaliacao.pizzas st' ≡ₚ Avaliacao.selectPizzasParaAvaliacao db'
     ∧ StronglySorted Avaliacao.maisAntigaPrimeiro (Avaliacao.pizzas st')).
Proof.
  apply avaliarPizza_linhas in Hok as [-> Hst'].
  pose proof (select_apos_update db (λ p, Pizza.id p = pizzaId)
                (Avaliacao.avaliar_linha agora resultado justificativa)
                ltac:(intros p [H _]; discriminate H)) as Hperm.
  split.
  - intros j Hj. rewrite Hperm in Hj.
    apply list_elem_of_filter in Hj as [Hj _]. exact Hj.
  - intros Hsync. rewrite Hst', Hsync. split.
    + rewrite Hperm. reflexivity.
    + apply StronglySorted_filter, select_sorted.
Qed.

Lemma evaluate_then_list_witness :
  Forall (λ j, Pizza.id (Linha.pizza j) ≠ "p1")
    (Avaliacao.selectPizzasParaAvaliacao
       (Banco.com_pizzas
          ((λ p, if decide (Pizza.id p = "p1")
                 then Avaliacao.avaliar_linha 9000 Aprovada None p
                 else p) <$> Banco.pizzas Exemplos.banco) Exemplos.banco)).
Proof.
  apply Forall_forall.
  exact (proj1 (evaluate_then_list 9000 "p1" Aprovada None Avaliacao.inicial
                  _ Exemplos.banco _ _ eq_refl)).
Defined.

(** X9. Rejecting, then listing. After the rejector ran for a round with
    no error from the store, the evaluator's query returns no item of that
    round, and it returns the items of the other rounds it returned
    before. *)
Theorem reject_then_list
    (agora : Z) (rodadaId : string) (db : Banco.t) :
  let db' := (Rejeicao.reprovarPizzasNaoAvaliadas false false agora rodadaId db).1 in
  (∀ j, j ∈ Avaliacao.selectPizzasParaAvaliacao db' →
        Pizza.rodada_id (Linha.pizza j) ≠ rodadaId)
  ∧ Avaliacao.selectPizzasParaAvaliacao db'
    ≡ₚ filter (λ j, Pizza.rodada_id (Linha.pizza j) ≠ rodadaId)
         (Avaliacao.selectPizzasParaAvaliacao db).
Proof.
  intros db'.
  assert (Avaliacao.selectPizzasParaAvaliacao db'
          ≡ₚ filter (λ j, Pizza.rodada_id (Linha.pizza j) ≠ rodadaId)
               (Avaliacao.selectPizzasParaAvaliacao db)) as Hperm.
  { unfold Avaliacao.selectPizzasParaAvaliacao. subst db'.
    rewrite !merge_sort_Permutation, reprovar_linhas.
    unfold Rejeicao.reprovar_se_pendente.
    rewrite (filter_prontas_apos_update (Rejeicao.pendenteDaRodada rodadaId)
               (Rejeicao.reprovar_linha agora) _
               ltac:(intros p [H _]; discriminate H)).
    assert (juntar_mesma :
              Avaliacao.juntar
                (Rejeicao.reprovarPizzasNaoAvaliadas false false agora rodadaId db).1
              = Avaliacao.juntar db).
    { unfold Rejeicao.reprovarPizzasNaoAvaliadas. simpl.
      case_bool_decide; reflexivity. }
    rewrite juntar_mesma.
    pose proof (filter_omap_juntar db (λ p, Pizza.rodada_id p ≠ rodadaId)
                  (filter Avaliacao.prontaSemResultado (Banco.pizzas db))) as E.
    cbv beta in E. rewrite E. f_equiv.
    rewrite !list_filter_filter.
    rewrite (list_filter_iff _ (λ a, Pizza.rodada_id a ≠ rodadaId
                                     ∧ Avaliacao.prontaSemResultado a));
      [reflexivity|].
    intros p. unfold Rejeicao.pendenteDaRodada, Avaliacao.prontaSemResultado.
    tauto. }
  split; [|exact Hperm].
  intros j Hj. rewrite Hperm in Hj.
  apply list_elem_of_filter in Hj as [Hj _]. exact Hj.
Qed.

(** ** The change feed and the evaluator's list *)

Lemma pizza_de_id db id p : Banco.pizza_de db id = Some p → Pizza.id p = id.
Proof.
  unfold Banco.pizza_de. intros H.
  destruct (list_find _ (Banco.pizzas db)) as [[i x]|] eqn:Hf; [|discriminate].
  simpl in H. injection H as <-. apply list_find_Some in Hf as (_ & Hx & _).
  exact Hx.
Qed.

Lemma pizzaCompleta_id db id c :
  Avaliacao.pizzaCompleta db id = Some c → Pizza.id (Linha.pizza c) = id.
Proof.
  unfold Avaliacao.pizzaCompleta.
  destruct (Banco.pizza_de db id) as [p|] eqn:Hp; [|discriminate].
  simpl. intros Hj. apply juntar_pizza in Hj as ->. eapply pizza_de_id, Hp.
Qed.

Lemma existe_chaves id ps :
  Avaliacao.existe id ps = true ↔ id ∈ Lista.chaves ps.
Proof.
  unfold Avaliacao.existe, Lista.chaves.
  rewrite bool_decide_eq_true, Exists_exists, list_elem_of_fmap. split.
  - intros (l & Hl & <-). eauto.
  - intros (l & -> & Hl). eauto.
Qed.

Lemma chaves_remover id ps :
  Lista.chaves (Avaliacao.remover id ps) = filter (λ k, k ≠ id) (Lista.chaves ps).
Proof.
  unfold Lista.chaves, Avaliacao.remover.
  induction ps as [|l ps IH]; [reflexivity|].
  rewrite fmap_cons, !filter_cons.
  destruct (decide (Pizza.id (Linha.pizza l) ≠ id));
    [rewrite fmap_cons|]; rewrite IH; reflexivity.
Qed.

Lemma chaves_substituir id c ps :
  Pizza.id (Linha.pizza c) = id →
  Lista.chaves ((λ l, if decide (Pizza.id (Linha.pizza l) = id) then c else l) <$> ps)
  = Lista.chaves ps.
Proof.
  intros Hc. unfold Lista.chaves. rewrite <- list_fmap_compose.
  apply list_fmap_ext. intros i l _. simpl.
  destruct (decide (Pizza.id (Linha.pizza l) = id)); congruence.
Qed.

Lemma aoPayload_chaves_unicas payload st db :
  NoDup (Lista.chaves (Avaliacao.pizzas st)) →
  NoDup (Lista.chaves (Avaliacao.pizzas (Avaliacao.aoPayload payload st db))).
Proof.
  intros Hnd. destruct payload as [p|p|p]; cbn [Avaliacao.aoPayload].
  - destruct (decide (Avaliacao.prontaSemResultado p)); [|exact Hnd].
    destruct (Avaliacao.pizzaCompleta db (Pizza.id p)) as [c|]; [|exact Hnd].
    destruct (Avaliacao.existe _ _) eqn:He; [exact Hnd|].
    simpl. apply NoDup_cons. split; [|exact Hnd].
    intros Hin. apply existe_chaves in Hin. congruence.
  - destruct (decide (Avaliacao.prontaSemResultado p)).
    + destruct (Avaliacao.pizzaCompleta db (Pizza.id p)) as [c|] eqn:Hc;
        [|exact Hnd].
      apply pizzaCompleta_id in Hc.
      destruct (Avaliacao.existe _ _) eqn:He; simpl.
      * rewrite chaves_substituir by exact Hc. exact Hnd.
      * apply NoDup_cons. split; [|exact Hnd]. rewrite Hc.
        intros Hin. apply existe_chaves in Hin. congruence.
    + case_bool_decide; [|exact Hnd]. simpl.
      rewrite chaves_remover. apply NoDup_filter, Hnd.
  - simpl. rewrite chaves_remover. apply NoDup_filter, Hnd.
Qed.

(** X10. The realtime handler never lists an item twice: if the keys of
    the evaluator's list are distinct, they are distinct after any change
    the feed reports, whatever the store holds and however many channels
    of the client deliver it. *)
Theorem handler_keeps_keys_unique
    (payload : Payload) (st : Avaliacao.Estado) (cl : Cliente.t) (db : Banco.t)
    (Hnd : NoDup (Lista.chaves (Avaliacao.pizzas st))) :
  NoDup (Lista.chaves (Avaliacao.pizzas (Avaliacao.aoPayload payload st db)))
  ∧ NoDup (Lista.chaves (Avaliacao.pizzas (Avaliacao.entregar payload st cl db))).
Proof.
  split; [apply aoPayload_chaves_unicas, Hnd|].
  unfold Avaliacao.entregar.
  induction (Cliente.ouvintes cl) as [|c cs IH]; [exact Hnd|].
  simpl. apply aoPayload_chaves_unicas, IH.
Qed.

Lemma handler_keeps_keys_unique_witness :
  NoDup (Lista.chaves
           (Avaliacao.pizzas
              (Avaliacao.aoPayload (INSERT Exemplos.pizza1)
                 (Avaliacao.fetchPizzasParaAvaliacao false Avaliacao.inicial
                    Exemplos.banco)
                 Exemplos.banco))).
Proof.
  apply (handler_keeps_keys_unique (INSERT Exemplos.pizza1) _ Cliente.inicial).
  apply (bool_decide_unpack _). vm_compute. exact I.
Defined.

Lemma aoPayload_retira payload k st db :
  Lista.retira payload = Some k →
  Avaliacao.pizzas (Avaliacao.aoPayload payload st db)
  = Avaliacao.remover k (Avaliacao.pizzas st).
Proof.
  destruct payload as [p|p|p]; cbn [Lista.retira Avaliacao.aoPayload].
  - discriminate.
  - case_bool_decide as Hev; [|discriminate]. intros Hk. injection Hk as <-.
    rewrite decide_False; [reflexivity|].
    intros [Hs Hr]. destruct Hev as [Hev|Hev]; congruence.
  - intros Hk. injection Hk as <-. reflexivity.
Qed.

(** X11. An evaluation reaches the lists of the other evaluators through
    the feed. The row written by a manual evaluation or by the automatic
    rejection is reported as an [UPDATE] that takes its key out; for such a
    change, and for a [DELETE], a hook with a listening channel ends with
    its list minus the rows of that key, the others kept in order. *)
Theorem feed_removes_evaluated
    (payload : Payload) (k : string) (st : Avaliacao.Estado) (cl : Cliente.t)
    (db : Banco.t)
    (Hk : Lista.retira payload = Some k)
    (Hcl : Cliente.ouvintes cl ≠ []) :
  Avaliacao.pizzas (Avaliacao.entregar payload st cl db)
  = filter (λ l, Pizza.id (Linha.pizza l) ≠ k) (Avaliacao.pizzas st)
  ∧ (∀ agora resultado justificativa p,
       Lista.retira (UPDATE (Avaliacao.avaliar_linha agora resultado justificativa p))
       = Some (Pizza.id p))
  ∧ (∀ agora p,
       Lista.retira (UPDATE (Rejeicao.reprovar_linha agora p)) = Some (Pizza.id p)).
Proof.
  split; [|split; reflexivity].
  unfold Avaliacao.entregar.
  destruct (Cliente.ouvintes cl) as [|c cs]; [contradiction|]. clear Hcl.
  simpl. rewrite (aoPayload_retira payload k _ db Hk).
  induction cs as [|c' cs IH]; [reflexivity|].
  simpl. rewrite (aoPayload_retira payload k _ db Hk).
  unfold Avaliacao.remover in *. rewrite <- IH.
  rewrite list_filter_filter_l; [reflexivity|auto].
Qed.

Lemma feed_removes_evaluated_witness :
  let montado := Avaliacao.efeitoRealtime false Avaliacao.inicial
                   Cliente.inicial Exemplos.banco in
  (Linha.pizza <$> Avaliacao.pizzas
     (Avaliacao.entregar
        (UPDATE (Rejeicao.reprovar_linha 400000 Exemplos.pizza2))
        montado.1 montado.2 Exemplos.banco))
  = [Exemplos.pizza1].
Proof.
  intros montado.
  destruct (feed_removes_evaluated
              (UPDATE (Rejeicao.reprovar_linha 400000 Exemplos.pizza2)) "p2"
              montado.1 montado.2 Exemplos.banco eq_refl
              ltac:(vm_compute; discriminate)) as [H _].
  rewrite H. reflexivity.
Defined.

(** ** Subscriptions that are torn down *)

Lemma remove_novo_canal (cl : Cliente.t) (b : bool) :
  Cliente.proximo cl ∉ Canal.nome <$> Cliente.canais cl →
  Cliente.canais (Cliente.removeChannel (Cliente.proximo cl) (Cliente.channel b cl).2)
  = Cliente.canais cl.
Proof.
  intros Hfresh. unfold Cliente.removeChannel, Cliente.channel. simpl.
  rewrite filter_app, filter_cons_False, filter_nil, app_nil_r
    by (simpl; intros H; apply H; reflexivity).
  apply filter_todos. intros k Hk Heq. apply Hfresh.
  apply list_elem_of_fmap. eauto.
Qed.

(** X12. A confirmed subscription is torn down. When the evaluator hook is
    mounted (no channel held yet), the feed confirms the subscription and
    the hook is then unmounted, the client is left with the channels it had
    before the mount, the hook holds no channel and no timer, and, if the
    client had no other channel, a change reported afterwards leaves the
    hook's state as it is. *)
Theorem confirmed_subscription_torn_down
    (erroFetch : bool) (st : Avaliacao.Estado) (cl : Cliente.t) (db : Banco.t)
    (Href : Avaliacao.channelRef st = None)
    (Hsub : Avaliacao.isSubscribedRef st = false)
    (Hfresh : Cliente.proximo cl ∉ Canal.nome <$> Cliente.canais cl) :
  let montado := Avaliacao.efeitoRealtime erroFetch st cl db in
  let confirmado := Avaliacao.aoStatus (Cliente.proximo cl) SUBSCRIBED
                      montado.1 montado.2 in
  let desmontado := Avaliacao.desmontar confirmado montado.2 in
  Cliente.proximo cl ∈ Cliente.ouvintes montado.2
  ∧ Cliente.canais desmontado.2 = Cliente.canais cl
  ∧ Avaliacao.channelRef desmontado.1 = None
  ∧ Avaliacao.isSubscribedRef desmontado.1 = false
  ∧ Avaliacao.intervalRef desmontado.1 = None
  ∧ (Cliente.canais cl = [] →
     ∀ payload db', Avaliacao.entregar payload desmontado.1 desmontado.2 db'
                    = desmontado.1).
Proof.
  intros montado confirmado desmontado.
  assert (montado.2 = (Cliente.channel true cl).2
          ∧ Avaliacao.channelRef montado.1 = Some (Cliente.proximo cl)
          ∧ Avaliacao.isSubscribedRef montado.1 = false) as (Hcl & Hc & Hs).
  { subst montado. clear confirmado desmontado.
    destruct st as [ps l e t c b i]. simpl in Href, Hsub. subst c b.
    destruct erroFetch; repeat split; reflexivity. }
  assert (Cliente.proximo cl ∈ Cliente.ouvintes montado.2) as Hin.
  { rewrite Hcl. unfold Cliente.ouvintes, Cliente.channel. simpl.
    rewrite filter_app, fmap_app. apply elem_of_app. right.
    rewrite filter_cons_True by reflexivity. simpl. left. }
  assert (Avaliacao.channelRef confirmado = Some (Cliente.proximo cl)
          ∧ Avaliacao.isSubscribedRef confirmado = true) as (Hc' & Hs').
  { subst confirmado. unfold Avaliacao.aoStatus.
    rewrite bool_decide_eq_true_2 by exact Hin. simpl. auto. }
  assert (desmontado
          = (Avaliacao.com_canal None false
               (Avaliacao.com_timer (Avaliacao.tempoRestante confirmado) None
                  confirmado),
             Cliente.removeChannel (Cliente.proximo cl) montado.2)) as Hd.
  { subst desmontado. unfold Avaliacao.desmontar, Avaliacao.cleanupChannel.
    simpl. rewrite Hc', Hs'. reflexivity. }
  split; [exact Hin|]. rewrite Hd. simpl.
  assert (Cliente.canais (Cliente.removeChannel (Cliente.proximo cl) montado.2)
          = Cliente.canais cl) as Hcanais
    by (rewrite Hcl; apply remove_novo_canal, Hfresh).
  split; [exact Hcanais|]. repeat split.
  intros Hvazio payload db'. unfold Avaliacao.entregar, Cliente.ouvintes.
  rewrite Hcanais, Hvazio. reflexivity.
Qed.

Lemma confirmed_subscription_torn_down_witness :
  let montado := Avaliacao.efeitoRealtime false Avaliacao.inicial
                   Cliente.inicial Exemplos.banco in
  let confirmado := Avaliacao.aoStatus 0%nat SUBSCRIBED montado.1 montado.2 in
  Cliente.canais (Avaliacao.desmontar confirmado montado.2).2 = [].
Proof.
  destruct (confirmed_subscription_torn_down false Avaliacao.inicial
              Cliente.inicial Exemplos.banco eq_refl eq_refl
              ltac:(apply not_elem_of_nil)) as (_ & H & _).
  exact H.
Defined.

(** X13. The product hook tears its channel down in every case. Mounted
    with no channel held, it creates one listening channel; its cleanup
    removes it whether or not the feed ever confirmed it, leaving the
    client with the channels it had before; run again while a channel is
    held, the effect creates no second channel. *)
Theorem produtos_channel_lifecycle
    (ProdutoLoja : Type)
    (resposta resposta' : Produtos.Resposta ProdutoLoja)
    (st : Produtos.Estado ProdutoLoja) (cl : Cliente.t)
    (Href : Produtos.channelRef _ st = None)
    (Hfresh : Cliente.proximo cl ∉ Canal.nome <$> Cliente.canais cl) :
  let montado := Produtos.efeito _ resposta st cl in
  let limpo := Produtos.limpeza _ montado.1 montado.2 in
  Produtos.channelRef _ montado.1 = Some (Cliente.proximo cl)
  ∧ Cliente.ouvintes montado.2 = Cliente.ouvintes cl ++ [Cliente.proximo cl]
  ∧ (Produtos.efeito _ resposta' montado.1 montado.2).2 = montado.2
  ∧ Cliente.canais limpo.2 = Cliente.canais cl
  ∧ Produtos.channelRef _ limpo.1 = None.
Proof.
  intros montado limpo.
  assert (montado
          = (Produtos.mkEstado _
               (Produtos.produtos _ (Produtos.fetchProdutos _ resposta st))
               (Produtos.loading _ (Produtos.fetchProdutos _ resposta st))
               (Produtos.error _ (Produtos.fetchProdutos _ resposta st))
               (Some (Cliente.proximo cl)),
             (Cliente.channel true cl).2)) as Hm.
  { subst montado. unfold Produtos.efeito.
    destruct resposta; simpl; rewrite Href; reflexivity. }
  subst limpo. rewrite Hm. simpl. split; [reflexivity|]. split; [|split; [|split]].
  - unfold Cliente.ouvintes. simpl. rewrite filter_app, fmap_app.
    rewrite filter_cons_True by reflexivity. reflexivity.
  - unfold Produtos.efeito. destruct resposta'; reflexivity.
  - apply (remove_novo_canal cl true Hfresh).
  - reflexivity.
Qed.

Lemma produtos_channel_lifecycle_witness :
  let montado := Produtos.efeito nat (Produtos.Dados nat (Some [1; 2]%nat))
                   (Produtos.inicial nat) Cliente.inicial in
  Cliente.ouvintes montado.2 = [0%nat]
  ∧ Cliente.canais (Produtos.limpeza nat montado.1 montado.2).2 = [].
Proof.
  destruct (produtos_channel_lifecycle nat (Produtos.Dados nat (Some [1; 2]%nat))
              (Produtos.Erro nat "x") (Produtos.inicial nat) Cliente.inicial
              eq_refl ltac:(apply not_elem_of_nil)) as (_ & H1 & _ & H2 & _).
  split; [exact H1 | exact H2].
Defined.

(** ** The gates of a submission *)

Lemma handleEnviarPizza_casos c erroEnvio novoId agora db :
  let res := Fila.handleEnviarPizza c erroEnvio novoId agora db in
  (Portas.abertas c ∧ erroEnvio = false
   ∧ res.1.1 = Fila.Enviada ∧ Portas.avisou_sabor res.2)
  ∨ (Portas.abertas c ∧ erroEnvio = true
     ∧ res.1.1 = Fila.ErroAoEnviar ∧ res.1.2 = db ∧ Portas.avisou_sabor res.2)
  ∨ (¬ Portas.abertas c
     ∧ res.1.1 ≠ Fila.Enviada ∧ res.1.1 ≠ Fila.ErroAoEnviar
     ∧ res.1.2 = db ∧ ¬ Portas.avisou_sabor res.2).
Proof.
  intros res. subst res. unfold Fila.handleEnviarPizza, Portas.abertas.
  destruct (Fila.rodadaAtual c) as [r|] eqn:Hr.
  2:{ right; right. simpl. repeat split; try discriminate.
      - intros (r & H & _). discriminate H.
      - intros (e & r & s & H). exact (not_elem_of_nil _ H). }
  assert (∀ m : string, ¬ Portas.avisou_sabor [ToastError m]) as Hte.
  { intros m (e & r' & s & H). apply list_elem_of_singleton in H. discriminate H. }
  assert (∀ l : Z, ¬ Portas.avisou_sabor [ToastLimiteAtingido l]) as Htl.
  { intros m (e & r' & s & H). apply list_elem_of_singleton in H. discriminate H. }
  case_bool_decide as Hs.
  { right; right. simpl. repeat split; try discriminate; [|apply Hte].
    intros (r' & _ & H & _). contradiction. }
  unfold Fila.podeEnviarPizza, Fila.verificarLimitePizzas.
  case_bool_decide as Hst.
  { right; right. simpl. repeat split; try discriminate; [|apply Hte].
    intros (r' & H & _ & H' & _). injection H as <-. contradiction. }
  destruct (Fila.isActive c) eqn:Ha.
  2:{ right; right. simpl. repeat split; try discriminate; [|apply Hte].
      intros (r' & _ & _ & _ & H & _). discriminate H. }
  case_bool_decide as Ht.
  { right; right. simpl. repeat split; try discriminate; [|apply Hte].
    intros (r' & _ & _ & _ & _ & H & _). lia. }
  case_bool_decide as Hl.
  { right; right. simpl. repeat split; try discriminate; [|apply Htl].
    intros (r' & _ & _ & _ & _ & _ & H). lia. }
  simpl.
  assert (∃ r', Some r = Some r' ∧ Fila.saborSelecionado c ≠ ""
                ∧ Rodada.status r' = Ativa ∧ true = true
                ∧ 0 < Fila.timeRemaining c
                ∧ Z.of_nat (length (Fila.pizzas c)) < Fila.limitePizzasRodada c)
    as Hab.
  { exists r. repeat split; try assumption; lia. }
  destruct erroEnvio; [right; left|left]; simpl;
    (split; [exact Hab|]); repeat split;
    exists (Fila.equipeId c), (Rodada.id r), (Fila.saborSelecionado c); left.
Qed.

(** X14. A submission creates an item only when every gate is open. The
    outcome is "sent" exactly when there is a round, a flavour is chosen,
    the round is active, the timer reports it active with time left, the
    team is below its limit and the insertion does not fail; in every
    other case the store is left as it is. The flavour-chosen notification
    goes out exactly when the gates are open, also when the insertion then
    fails. *)
Theorem submission_gates
    (c : Fila.Componente) (erroEnvio : bool) (novoId : string) (agora : Z)
    (db : Banco.t) :
  let res := Fila.handleEnviarPizza c erroEnvio novoId agora db in
  (res.1.1 = Fila.Enviada ↔ Portas.abertas c ∧ erroEnvio = false)
  ∧ (res.1.1 ≠ Fila.Enviada → res.1.2 = db)
  ∧ (Portas.avisou_sabor res.2 ↔ Portas.abertas c).
Proof.
  intros res.
  destruct (handleEnviarPizza_casos c erroEnvio novoId agora db)
    as [(Hab & He & Hd & Hav)|[(Hab & He & Hd & Hdb & Hav)|(Hab & Hd & Hd' & Hdb & Hav)]];
    fold res in Hd, Hav; try fold res in Hdb; try fold res in Hd'.
  - split; [split; [auto|intros _; exact Hd]|].
    split; [intros H; contradiction|]. split; [intros _; exact Hab|intros _; exact Hav].
  - split; [split; [intros H; congruence|intros [_ H]; congruence]|].
    split; [intros _; exact Hdb|].
    split; [intros _; exact Hab|intros _; exact Hav].
  - split; [split; [intros H; contradiction|intros [H _]; contradiction]|].
    split; [intros _; exact Hdb|].
    split; [intros H; contradiction|intros H; contradiction].
Qed.

(** X15. The refusals of a submission come in a fixed order. With a round
    at hand, a missing flavour is reported whatever the round and the
    limit; with a flavour chosen, a round that does not accept items is
    reported even when the team has reached its limit; the limit is
    reported only when the round accepts items. With no round nothing is
    reported. *)
Theorem submission_refusal_order
    (c : Fila.Componente) (erroEnvio : bool) (novoId : string) (agora : Z)
    (db : Banco.t) :
  let res := Fila.handleEnviarPizza c erroEnvio novoId agora db in
  let aceita := Fila.podeEnviarPizza (Fila.rodadaAtual c) (Fila.isActive c)
                  (Fila.timeRemaining c) in
  (res.1.1 = Fila.SemRodada ↔ Fila.rodadaAtual c = None)
  ∧ (Fila.rodadaAtual c = None → res.2 = [])
  ∧ (res.1.1 = Fila.SaborNaoSelecionado
     ↔ Fila.rodadaAtual c ≠ None ∧ Fila.saborSelecionado c = "")
  ∧ (res.1.1 = Fila.TempoEsgotado
     ↔ Fila.rodadaAtual c ≠ None ∧ Fila.saborSelecionado c ≠ "" ∧ aceita = false)
  ∧ (res.1.1 = Fila.LimiteAtingido
     ↔ Fila.rodadaAtual c ≠ None ∧ Fila.saborSelecionado c ≠ "" ∧ aceita = true
       ∧ Fila.limitePizzasRodada c ≤ Z.of_nat (length (Fila.pizzas c))).
Proof.
  intros res aceita. subst res aceita.
  unfold Fila.handleEnviarPizza, Fila.verificarLimitePizzas.
  destruct (Fila.rodadaAtual c) as [r|] eqn:Hr; [|simpl; naive_solver].
  case_bool_decide as Hs; [simpl; naive_solver|].
  destruct (Fila.podeEnviarPizza (Some r) (Fila.isActive c) (Fila.timeRemaining c))
    eqn:Hp; cbn [negb]; [|simpl; naive_solver].
  case_bool_decide as Hl; [simpl; naive_solver|].
  destruct erroEnvio; simpl; naive_solver lia.
Qed.

(** ** The counters of the administration screen *)

Lemma sum_list_fmap_add {A} (f g : A → nat) (l : list A) :
  sum_list ((λ x, f x + g x)%nat <$> l)
  = (sum_list (f <$> l) + sum_list (g <$> l))%nat.
Proof. induction l as [|x l IH]; csimpl; lia. Qed.

(** A key that is in a list of distinct keys is there once. *)
Lemma uma_equipe (equipes : list Equipe.t) (k : string) :
  NoDup (Equipe.id <$> equipes) →
  k ∈ Equipe.id <$> equipes →
  sum_list ((λ e, if decide (k = Equipe.id e) then 1 else 0)%nat <$> equipes) = 1%nat.
Proof.
  induction equipes as [|e es IH]; intros Hnd Hin.
  - by apply not_elem_of_nil in Hin.
  - rewrite fmap_cons in Hnd, Hin. apply NoDup_cons in Hnd as [Hnot Hnd].
    csimpl. destruct (decide (k = Equipe.id e)) as [->|Hne].
    + assert (sum_list ((λ e0, if decide (Equipe.id e = Equipe.id e0) then 1 else 0)%nat
                          <$> es) = 0%nat) as ->; [|reflexivity].
      clear IH Hin Hnd. induction es as [|e' es IH]; [reflexivity|].
      rewrite fmap_cons in Hnot. apply not_elem_of_cons in Hnot as [Hne Hnot].
      csimpl. rewrite decide_False by exact Hne. apply IH, Hnot.
    + apply elem_of_cons in Hin as [Hin|Hin]; [contradiction|].
      rewrite IH by assumption. reflexivity.
Qed.

Lemma total_das_equipes (equipes : list Equipe.t) (pizzas : list Pizza.t) :
  NoDup (Equipe.id <$> equipes) →
  (∀ p, p ∈ pizzas → Pizza.equipe_id p ∈ Equipe.id <$> equipes) →
  sum_list ((λ e, length (filter (λ p, Pizza.equipe_id p = Equipe.id e) pizzas))
              <$> equipes)
  = length pizzas.
Proof.
  intros Hnd. induction pizzas as [|p ps IH]; intros Hfk.
  - clear Hnd Hfk. induction equipes as [|e es IHe]; [reflexivity|].
    csimpl. exact IHe.
  - erewrite (list_fmap_ext _
                (λ e, (if decide (Pizza.equipe_id p = Equipe.id e) then 1 else 0)
                      + length (filter (λ q, Pizza.equipe_id q = Equipe.id e) ps))%nat).
    + rewrite sum_list_fmap_add, uma_equipe, IH; [reflexivity| |exact Hnd|].
      * intros q Hq. apply Hfk. right. exact Hq.
      * apply Hfk. left.
    + intros i e _. simpl. rewrite filter_cons.
      destruct (decide (Pizza.equipe_id p = Equipe.id e)); reflexivity.
Qed.

(** Three classes of rows that exclude each other do not count more rows
    than there are. *)
Lemma tres_classes {A} (P Q R : A → Prop)
    `{∀ x, Decision (P x)} `{∀ x, Decision (Q x)} `{∀ x, Decision (R x)}
    (l : list A) :
  (∀ x, x ∈ l → ¬ (P x ∧ Q x) ∧ ¬ (P x ∧ R x) ∧ ¬ (Q x ∧ R x)) →
  (length (filter P l) + length (filter Q l) + length (filter R l) ≤ length l)%nat.
Proof.
  induction l as [|x l IH]; intros Hd; [simpl; lia|].
  rewrite !filter_cons.
  destruct (Hd x ltac:(left)) as (Hd1 & Hd2 & Hd3).
  specialize (IH (λ y Hy, Hd y ltac:(right; exact Hy))).
  destruct (decide (P x)), (decide (Q x)), (decide (R x)); simpl; try lia; tauto.
Qed.

(** X16. The per-team counters add up. When the team keys are distinct
    and every item belongs to a listed team, the totals of the rows of
    [estatisticasPorEquipe] sum to the number of items; and when every item
    carries a result exactly when it is evaluated, no row counts more
    ready, approved and rejected items together than its total. *)
Theorem team_counters_add_up
    (equipes : list Equipe.t) (pizzas : list Pizza.t)
    (Hnd : NoDup (Equipe.id <$> equipes))
    (Hfk : ∀ p, p ∈ pizzas → Pizza.equipe_id p ∈ Equipe.id <$> equipes)
    (Hc : Forall Invariantes.coerente pizzas) :
  sum_list (Painel.total <$> Painel.estatisticasPorEquipe equipes pizzas)
  = length pizzas
  ∧ Forall (λ e, (Painel.prontas e + Painel.aprovadas e + Painel.reprovadas e
                  ≤ Painel.total e)%nat)
           (Painel.estatisticasPorEquipe equipes pizzas).
Proof.
  split.
  - unfold Painel.estatisticasPorEquipe. rewrite <- list_fmap_compose.
    apply total_das_equipes; assumption.
  - unfold Painel.estatisticasPorEquipe. apply Forall_fmap, Forall_forall.
    intros e _. simpl. apply tres_classes. intros p Hp.
    apply list_elem_of_filter in Hp as [_ Hp].
    rewrite Forall_forall in Hc. specialize (Hc p Hp).
    unfold Invariantes.coerente in Hc. repeat split.
    + intros [Hs Hr]. assert (Pizza.status p = Avaliada) by (apply Hc; congruence).
      congruence.
    + intros [Hs Hr]. assert (Pizza.status p = Avaliada) by (apply Hc; congruence).
      congruence.
    + intros [Hr Hr']. congruence.
Qed.

Lemma team_counters_add_up_witness :
  sum_list (Painel.total
              <$> Painel.estatisticasPorEquipe (Banco.equipes Exemplos.banco)
                    (Banco.pizzas Exemplos.banco)) = 3%nat.
Proof.
  assert (NoDup (Equipe.id <$> Banco.equipes Exemplos.banco)) as Hnd
    by (apply (bool_decide_unpack _); vm_compute; exact I).
  assert (∀ p, p ∈ Banco.pizzas Exemplos.banco →
               Pizza.equipe_id p ∈ Equipe.id <$> Banco.equipes Exemplos.banco) as Hfk.
  { intros p Hp. apply list_elem_of_In in Hp. simpl in Hp.
    destruct Hp as [<-|[<-|[<-|[]]]]; apply (bool_decide_unpack _);
      vm_compute; exact I. }
  assert (Forall Invariantes.coerente (Banco.pizzas Exemplos.banco)) as Hc.
  { repeat constructor; simpl; try discriminate; intros H; try discriminate H;
      exfalso; apply H; reflexivity. }
  destruct (team_counters_add_up _ _ Hnd Hfk Hc) as [H _]. exact H.
Defined.

(** X17. On a coherent table the two revisions of the screen count alike.
    When every item carries a result exactly when it is evaluated, the
    approved and rejected items taken among the evaluated ones (earlier
    revision) are the approved and rejected items of the whole list (later
    revision), every evaluated item is one or the other, and the pending
    counter of the later revision is the number of ready items. *)
Theorem screen_counters_agree
    (equipes : list Equipe.t) (pizzas : list Pizza.t)
    (Hc : Forall Invariantes.coerente pizzas) :
  let g := Painel.estatisticasGerais equipes pizzas in
  length (Painel.pizzasAprovadas pizzas) = Painel.geraisAprovadas g
  ∧ length (Painel.pizzasReprovadas pizzas) = Painel.geraisReprovadas g
  ∧ length (Painel.pizzasAvaliadas pizzas)
    = (Painel.geraisAprovadas g + Painel.geraisReprovadas g)%nat
  ∧ length (Painel.pizzasProntas pizzas) = Painel.pizzasPendentes g
  ∧ (Painel.pizzasPendentes g + Painel.geraisAprovadas g + Painel.geraisReprovadas g
     ≤ Painel.totalPizzas g)%nat.
Proof.
  simpl. unfold Painel.pizzasAprovadas, Painel.pizzasReprovadas,
    Painel.pizzasAvaliadas, Painel.pizzasProntas.
  induction Hc as [|p ps Hp Hc IH]; [simpl; lia|].
  destruct IH as (IH1 & IH2 & IH3 & IH4 & IH5).
  unfold Invariantes.coerente in Hp.
  rewrite !(filter_cons _ p).
  destruct (Pizza.status p) eqn:Hs, (Pizza.resultado p) as [[|]|] eqn:Hr;
    try (exfalso; destruct Hp as [Hp1 Hp2];
         first [ (assert (Avaliada = Avaliada → False) by (intros _; apply Hp2; auto);
                  auto; fail)
               | (specialize (Hp1 ltac:(discriminate)); discriminate Hp1) ]);
    repeat (rewrite ?decide_True, ?decide_False, ?filter_cons by congruence);
    simpl; lia.
Qed.

Lemma screen_counters_agree_witness :
  length (Painel.pizzasAvaliadas (Banco.pizzas Exemplos.banco)) = 1%nat.
Proof.
  assert (Forall Invariantes.coerente (Banco.pizzas Exemplos.banco)) as Hc.
  { repeat constructor; simpl; try discriminate; intros H; try discriminate H;
      exfalso; apply H; reflexivity. }
  destruct (screen_counters_agree (Banco.equipes Exemplos.banco) _ Hc)
    as (_ & _ & H & _).
  exact H.
Defined.

(** ** The flavours shown for the round *)

#[local] Instance porOrdem_total : Total Visualizador.porOrdem.
Proof. intros a b. unfold Visualizador.porOrdem. lia. Qed.

#[local] Instance porOrdem_trans : Transitive Visualizador.porOrdem.
Proof. intros a b c. unfold Visualizador.porOrdem. lia. Qed.






(** ** The clock face *)

Lemma dois_digitos n :
  0 ≤ n < 100 →
  Tempo.padStart2 (pretty n)
  = String (Tempo.digito (n / 10)) (String (Tempo.digito (n `mod` 10)) "").
Proof.
  intros Hn.
  assert (Forall (λ n, Tempo.padStart2 (pretty n)
                       = String (Tempo.digito (n / 10))
                           (String (Tempo.digito (n `mod` 10)) ""))
            (seqZ 0 100)) as Hall
    by (apply (bool_decide_unpack _); vm_compute; exact I).
  rewrite Forall_forall in Hall. apply Hall, elem_of_seqZ. lia.
Qed.

Lemma digito_inj a b :
  0 ≤ a < 10 → 0 ≤ b < 10 → Tempo.digito a = Tempo.digito b → a = b.
Proof.
  intros Ha Hb H. unfold Tempo.digito in H.
  apply (f_equal Ascii.nat_of_ascii) in H.
  rewrite !Ascii.nat_ascii_embedding in H by lia. lia.
Qed.

Lemma formatarTempo_digitos s :
  0 ≤ s < 6000 →
  Tempo.formatarTempo s
  = String (Tempo.digito (s / 60 / 10)) (String (Tempo.digito ((s / 60) `mod` 10)) "")
    +:+ ":"
    +:+ String (Tempo.digito ((s `mod` 60) / 10))
          (String (Tempo.digito ((s `mod` 60) `mod` 10)) "").
Proof.
  intros Hs. unfold Tempo.formatarTempo.
  rewrite Z.rem_mod_nonneg by lia.
  rewrite !dois_digitos; [reflexivity| |].
  - pose proof (Z.mod_pos_bound s 60 ltac:(lia)). lia.
  - split; [apply Z.div_pos; lia|apply Z.div_lt_upper_bound; lia].
Qed.

Lemma dois_digitos_sem_zero n : 10 ≤ n < 100 → Tempo.padStart2 (pretty n) = pretty n.
Proof.
  intros Hn.
  assert (Forall (λ n, Tempo.padStart2 (pretty n) = pretty n) (seqZ 10 90)) as Hall
    by (apply (bool_decide_unpack _); vm_compute; exact I).
  rewrite Forall_forall in Hall. apply Hall, elem_of_seqZ. lia.
Qed.

(** X19. The clock face of the team screen is faithful below one hundred
    minutes: a time of 0 to 5999 seconds is shown as two digits of minutes,
    a colon and two digits of seconds, and two different times are never
    shown alike. From ten minutes on the administration screen shows the
    same text. *)
Theorem clock_face_faithful (s1 s2 : Z)
    (H1 : 0 ≤ s1 < 6000) (H2 : 0 ≤ s2 < 6000) :
  String.length (Tempo.formatarTempo s1) = 5%nat
  ∧ Tempo.formatarTempo s1
    = String (Tempo.digito (s1 / 60 / 10))
        (String (Tempo.digito ((s1 / 60) `mod` 10)) "")
      +:+ ":"
      +:+ String (Tempo.digito ((s1 `mod` 60) / 10))
            (String (Tempo.digito ((s1 `mod` 60) `mod` 10)) "")
  ∧ (Tempo.formatarTempo s1 = Tempo.formatarTempo s2 → s1 = s2)
  ∧ (600 ≤ s1 → Tempo.formatarTempoAdmin s1 = Tempo.formatarTempo s1).
Proof.
  assert (600 ≤ s1 → Tempo.formatarTempoAdmin s1 = Tempo.formatarTempo s1) as Hadm.
  { intros H600. unfold Tempo.formatarTempoAdmin, Tempo.formatarTempo.
    rewrite (dois_digitos_sem_zero (s1 / 60)); [reflexivity|].
    split; [apply Z.div_le_lower_bound; lia|apply Z.div_lt_upper_bound; lia]. }
  rewrite (formatarTempo_digitos s1 H1). split; [reflexivity|].
  split; [reflexivity|]. split; [|rewrite <- (formatarTempo_digitos s1 H1); exact Hadm].
  rewrite (formatarTempo_digitos s2 H2). intros H.
  simpl in H. injection H as Ha Hb Hc Hd.
  assert (∀ s, 0 ≤ s < 6000 →
               0 ≤ s / 60 / 10 < 10 ∧ 0 ≤ (s / 60) `mod` 10 < 10
               ∧ 0 ≤ (s `mod` 60) / 10 < 10 ∧ 0 ≤ (s `mod` 60) `mod` 10 < 10)
    as Hr.
  { intros s Hs. pose proof (Z.mod_pos_bound s 60 ltac:(lia)).
    assert (0 ≤ s / 60 < 100)
      by (split; [apply Z.div_pos; lia|apply Z.div_lt_upper_bound; lia]).
    repeat split; try (apply Z.mod_pos_bound; lia);
      try (apply Z.div_pos; lia); apply Z.div_lt_upper_bound; lia. }
  destruct (Hr s1 H1) as (? & ? & ? & ?). destruct (Hr s2 H2) as (? & ? & ? & ?).
  apply digito_inj in Ha, Hb, Hc, Hd; try assumption.
  pose proof (Z.div_mod s1 60 ltac:(lia)). pose proof (Z.div_mod s2 60 ltac:(lia)).
  pose proof (Z.div_mod (s1 / 60) 10 ltac:(lia)).
  pose proof (Z.div_mod (s2 / 60) 10 ltac:(lia)).
  pose proof (Z.div_mod (s1 `mod` 60) 10 ltac:(lia)).
  pose proof (Z.div_mod (s2 `mod` 60) 10 ltac:(lia)).
  lia.
Qed.

Lemma clock_face_faithful_witness :
  Tempo.formatarTempo 299 = "04:59".
Proof.
  destruct (clock_face_faithful 299 0 ltac:(lia) ltac:(lia)) as (_ & H & _).
  rewrite H. reflexivity.
Defined.

(** ** The two listings *)

Lemma filter_ext_in {A} (P Q : A → Prop)
    `{∀ x, Decision (P x)} `{∀ x, Decision (Q x)} (l : list A) :
  (∀ x, x ∈ l → (P x ↔ Q x)) → filter P l = filter Q l.
Proof.
  induction l as [|x l IH]; intros Hpq; [reflexivity|].
  rewrite !filter_cons, IH by (intros y Hy; apply Hpq; right; exact Hy).
  destruct (Hpq x ltac:(left)) as [Hpq1 Hpq2].
  destruct (decide (P x)), (decide (Q x)); tauto || reflexivity.
Qed.

(** X20. The team-scoped listing is the evaluator's listing cut down to
    the team. In a store where every item refers to a round, the rows the
    team-scoped hook fetches are, for an empty or whitespace-only team
    identifier, the rows the evaluator's hook fetches, and for any other
    identifier those among them that belong to that team. *)
Theorem team_listing_is_restriction
    (equipeId : string) (db : Banco.t) (Hfr : Banco.rodadas_integras db) :
  let geral := Linha.pizza <$> Avaliacao.selectPizzasParaAvaliacao db in
  let daEquipe := PizzaWithRelations.pizza
                    <$> AvaliacaoEquipe.selectPizzasParaAvaliacao equipeId db in
  (AvaliacaoEquipe.em_branco equipeId → daEquipe ≡ₚ geral)
  ∧ (¬ AvaliacaoEquipe.em_branco equipeId →
     daEquipe ≡ₚ filter (λ p, Pizza.equipe_id p = equipeId) geral).
Proof.
  intros geral daEquipe.
  assert (geral ≡ₚ filter (λ p, is_Some (Banco.equipe_de db (Pizza.equipe_id p)))
                     (filter Avaliacao.prontaSemResultado (Banco.pizzas db)))
    as Hg.
  { subst geral. unfold Avaliacao.selectPizzasParaAvaliacao.
    rewrite merge_sort_Permutation, juntar_linhas. reflexivity. }
  assert (∀ l : list Pizza.t, (∀ p, p ∈ l → p ∈ Banco.pizzas db) →
            PizzaWithRelations.pizza <$> omap (AvaliacaoEquipe.juntar db) l
            = filter (λ p, is_Some (Banco.equipe_de db (Pizza.equipe_id p))) l)
    as Hj.
  { intros l Hl. rewrite juntar_linhas_equipe. apply filter_ext_in.
    intros p Hp. split; [tauto|]. intros He. split; [exact He|].
    apply Hfr, Hl, Hp. }
  split; intros Hb.
  - apply equipeInformada_false in Hb. subst daEquipe.
    unfold AvaliacaoEquipe.selectPizzasParaAvaliacao. rewrite Hb.
    rewrite merge_sort_Permutation, Hj, Hg; [reflexivity|].
    intros p Hp. apply list_elem_of_filter in Hp as [_ Hp]. exact Hp.
  - apply equipeInformada_true in Hb. subst daEquipe.
    unfold AvaliacaoEquipe.selectPizzasParaAvaliacao. rewrite Hb.
    rewrite merge_sort_Permutation, Hj, Hg.
    + rewrite !list_filter_filter. apply reflexive_eq, list_filter_iff.
      intros p. tauto.
    + intros p Hp. apply list_elem_of_filter in Hp as [_ Hp].
      apply list_elem_of_filter in Hp as [_ Hp]. exact Hp.
Qed.

Lemma team_listing_is_restriction_witness :
  (PizzaWithRelations.pizza
     <$> AvaliacaoEquipe.selectPizzasParaAvaliacao "e2" Exemplos.banco)
  ≡ₚ filter (λ p, Pizza.equipe_id p = "e2")
       (Linha.pizza <$> Avaliacao.selectPizzasParaAvaliacao Exemplos.banco).
Proof.
  assert (Banco.rodadas_integras Exemplos.banco) as Hfr.
  { intros p Hp. apply list_elem_of_In in Hp. simpl in Hp.
    destruct Hp as [<-|[<-|[<-|[]]]]; vm_compute; eauto. }
  destruct (team_listing_is_restriction "e2" Exemplos.banco Hfr) as [_ H].
  apply H. intros Hb. apply Forall_cons in Hb as [Hb _]. discriminate Hb.
Defined.

(** ** What the rejector hook reports *)

(** X21. What the hook shows for a finished round that has an end
    instant. Inside the additional time (and the round not yet processed)
    the effect reports that the additional time is running, with the
    seconds left, at least 1; from its end on, or once the round is
    processed, it reports 0 seconds and that the additional time is
    over. *)
Theorem rejector_hook_reports
    (r : Rodada.t) (lim agora : Z) (se ue : bool)
    (st : Rejeicao.Estado) (db : Banco.t)
    (Hp : Prazo.prazo r = Some lim) :
  let st' := (Rejeicao.efeitoPrincipal (Some r) se ue agora st db).1.1 in
  (agora < lim → Rodada.id r ∉ Rejeicao.tempoAdicionalProcessadoRef st →
     Rejeicao.estaNoTempoAdicional st' = true
     ∧ Rejeicao.tempoRestante st' = Relogio.calcularTempoRestante (Some r) agora
     ∧ ∃ k, Rejeicao.tempoRestante st' = Some k ∧ 1 ≤ k)
  ∧ (lim ≤ agora ∨ Rodada.id r ∈ Rejeicao.tempoAdicionalProcessadoRef st →
     Rejeicao.estaNoTempoAdicional st' = false
     ∧ Rejeicao.tempoRestante st' = Some 0
     ∧ Rejeicao.intervalRef st' = None).
Proof.
  intros st'. pose proof (prazo_Some r lim Hp) as (Hfin & _).
  subst st'. unfold Rejeicao.efeitoPrincipal.
  rewrite bool_decide_eq_false_2 by (rewrite Hfin; intros H; apply H; reflexivity).
  split.
  - intros Hlt Hproc. rewrite bool_decide_eq_false_2 by exact Hproc.
    destruct (calcular_antes_do_prazo r lim agora Hp Hlt) as (k & -> & Hk).
    rewrite bool_decide_eq_false_2 by lia. simpl.
    split; [reflexivity|]. split; [reflexivity|]. exists k. split; [reflexivity|lia].
  - intros Hcase. case_bool_decide as Hproc; [simpl; auto|].
    destruct Hcase as [Hle|Hin]; [|contradiction].
    rewrite (calcular_depois_do_prazo r lim agora Hp Hle).
    rewrite bool_decide_eq_true_2 by lia.
    destruct (Rejeicao.reprovarPizzasNaoAvaliadas _ _ _ _ _) as [db' ev]. simpl. auto.
Qed.

Lemma rejector_hook_reports_witness :
  Rejeicao.tempoRestante
    (Rejeicao.efeitoPrincipal (Some Exemplos.rodadaFinalizada) false false 340500
       Rejeicao.inicial Exemplos.banco).1.1 = Some 20.
Proof.
  destruct (rejector_hook_reports Exemplos.rodadaFinalizada 360000 340500
              false false Rejeicao.inicial Exemplos.banco eq_refl) as [H _].
  destruct (H ltac:(lia) ltac:(simpl; set_solver)) as (_ & -> & _).
  reflexivity.
Defined.

(** X22. The evaluator screen and the rejector show the same countdown:
    for a round that is not finished, or finished with an end instant (and
    not yet processed by the rejector), the timer effect of the evaluator's
    hook and the main effect of the rejector's hook report the same seconds
    left. *)
Theorem both_hooks_same_countdown
    (rodadaAtual : option Rodada.t) (agora : Z) (se ue : bool)
    (sa : Avaliacao.Estado) (sr : Rejeicao.Estado) (db : Banco.t)
    (Hfim : ∀ r, rodadaAtual = Some r → Rodada.status r = Finalizada →
                 is_Some (Rodada.finalizou_em r)
                 ∧ Rodada.id r ∉ Rejeicao.tempoAdicionalProcessadoRef sr) :
  Avaliacao.tempoRestante (Avaliacao.efeitoTimer rodadaAtual agora sa)
  = Rejeicao.tempoRestante
      (Rejeicao.efeitoPrincipal rodadaAtual se ue agora sr db).1.1.
Proof.
  unfold Avaliacao.efeitoTimer, Rejeicao.efeitoPrincipal.
  destruct rodadaAtual as [r|]; [|reflexivity].
  case_bool_decide as Hst; [reflexivity|].
  destruct (Hfim r eq_refl Hst) as [[fim Hf] Hproc].
  rewrite Hf, (bool_decide_eq_false_2 _ Hproc).
  rewrite (calcular_finalizada r fim agora Hst Hf).
  case_bool_decide; [|reflexivity].
  destruct (Rejeicao.reprovarPizzasNaoAvaliadas _ _ _ _ _) as [db' ev]. reflexivity.
Qed.

Lemma both_hooks_same_countdown_witness :
  Avaliacao.tempoRestante
    (Avaliacao.efeitoTimer (Some Exemplos.rodadaFinalizada) 340500 Avaliacao.inicial)
  = Some 20.
Proof.
  rewrite (both_hooks_same_countdown (Some Exemplos.rodadaFinalizada) 340500
             false false Avaliacao.inicial Rejeicao.inicial Exemplos.banco).
  - reflexivity.
  - intros r Hr _. injection Hr as <-. split; [simpl; eauto|simpl; set_solver].
Defined.

(** ** Two clients *)

(** X23. A second client's trigger is silent. When one client's hook has
    rejected the pending items of a finished round (its store requests
    meeting no error), another client's hook that runs its own schedule for
    the same round on the resulting store (effect run and actions inside
    the additional time, a tick past it, then anything for the round)
    changes nothing and notifies nobody. *)
Theorem second_client_is_silent
    (r : Rodada.t) (lim tA tardeA tB tardeB : Z) (seB0 ueB0 seB ueB : bool)
    (cedoA cedoB depoisB : list Rejeicao.Acao)
    (stA stB : Rejeicao.Estado) (db : Banco.t)
    (Hp : Prazo.prazo r = Some lim)
    (HprocA : Rodada.id r ∉ Rejeicao.tempoAdicionalProcessadoRef stA)
    (HprocB : Rodada.id r ∉ Rejeicao.tempoAdicionalProcessadoRef stB)
    (HtA : tA < lim) (HtB : tB < lim)
    (HcedoA : Forall (Prazo.antecipada r lim) cedoA)
    (HcedoB : Forall (Prazo.antecipada r lim) cedoB)
    (HtardeA : lim ≤ tardeA) (HtardeB : lim ≤ tardeB)
    (HdepoisB : Forall (Rejeicao.sobre_rodada (Rodada.id r)) depoisB) :
  let resA := Rejeicao.executar
                (Rejeicao.Efeito r false false tA :: cedoA
                 ++ Rejeicao.Tick false false tardeA :: []) stA db in
  let resB := Rejeicao.executar
                (Rejeicao.Efeito r seB0 ueB0 tB :: cedoB
                 ++ Rejeicao.Tick seB ueB tardeB :: depoisB) stB resA.1.2 in
  resB.1.2 = resA.1.2 ∧ resB.2 = []
  ∧ filter (Rejeicao.pendenteDaRodada (Rodada.id r)) (Banco.pizzas resA.1.2) = [].
Proof.
  intros resA resB.
  destruct (executar_agenda r lim tA tardeA false false false false cedoA []
              stA db Hp HprocA HtA HcedoA HtardeA ltac:(constructor))
    as [HA _]. fold resA in HA.
  assert (filter (Rejeicao.pendenteDaRodada (Rodada.id r)) (Banco.pizzas resA.1.2)
          = []) as Hnil by (rewrite HA; apply sem_pendentes_apos_reprovar).
  destruct (executar_agenda r lim tB tardeB seB0 ueB0 seB ueB cedoB depoisB
              stB resA.1.2 Hp HprocB HtB HcedoB HtardeB HdepoisB) as [HB1 HB2].
  fold resB in HB1, HB2.
  rewrite (reprovar_sem_pendentes (Rodada.id r) seB ueB tardeB _ Hnil) in HB1, HB2.
  auto.
Qed.

Lemma second_client_is_silent_witness :
  let resA := Rejeicao.executar
                [ Rejeicao.Efeito Exemplos.rodadaFinalizada false false 310000;
                  Rejeicao.Tick false false 360000 ]
                Rejeicao.inicial Exemplos.banco in
  (Rejeicao.executar
     [ Rejeicao.Efeito Exemplos.rodadaFinalizada false false 320000;
       Rejeicao.Tick false false 360500 ]
     Rejeicao.inicial resA.1.2).2 = [].
Proof.
  destruct (second_client_is_silent Exemplos.rodadaFinalizada 360000
              310000 360000 320000 360500 false false false false [] [] []
              Rejeicao.inicial Rejeicao.inicial Exemplos.banco eq_refl
              ltac:(simpl; set_solver) ltac:(simpl; set_solver)
              ltac:(lia) ltac:(lia) ltac:(constructor) ltac:(constructor)
              ltac:(lia) ltac:(lia) ltac:(constructor)) as (_ & H & _).
  exact H.
Defined.

(** ** Extending twice *)

(** X24. Extensions add up only through a refreshed copy of the round.
    For a round that is in the store: extending by [a] minutes and then,
    from the copy read back from the store, by [b] minutes leaves the limit
    at the first copy's limit plus (a + b)·60; extending twice from the
    same copy leaves it at that copy's limit plus b·60, the first extension
    being overwritten. *)
Theorem extensions_compose
    (r r0 : Rodada.t) (a b : Z) (db : Banco.t)
    (Hr : Banco.rodada_de db (Rodada.id r) = Some r0) :
  let db1 := (Producao.adicionarMinutos (Some r) false a db).1 in
  (∃ r1, Banco.rodada_de db1 (Rodada.id r) = Some r1
         ∧ Rodada.id r1 = Rodada.id r
         ∧ Producao.tempo_limite_de (Rodada.id r)
             (Producao.adicionarMinutos (Some r1) false b db1).1
           = Some (Rodada.tempo_limite r + (a + b) * 60))
  ∧ Producao.tempo_limite_de (Rodada.id r)
      (Producao.adicionarMinutos (Some r) false b db1).1
    = Some (Rodada.tempo_limite r + b * 60).
Proof.
  intros db1. pose proof (rodada_de_id _ _ _ Hr) as Hid.
  assert (Banco.rodada_de db1 (Rodada.id r)
          = Some (Rodada.mk (Rodada.id r0) (Rodada.numero r0) (Rodada.status r0)
                    (Rodada.tempo_limite r + a * 60)
                    (Rodada.iniciou_em r0) (Rodada.finalizou_em r0))) as H1.
  { subst db1. unfold Producao.adicionarMinutos. cbn [fst].
    rewrite rodada_de_update, Hr. cbn [fmap option_fmap option_map].
    rewrite bool_decide_eq_true_2 by exact Hid. reflexivity. }
  split.
  - eexists. split; [exact H1|]. split; [exact Hid|].
    unfold Producao.tempo_limite_de, Producao.adicionarMinutos.
    cbn [fst Rodada.id Rodada.tempo_limite].
    rewrite rodada_de_update, Hid, H1. cbn [fmap option_fmap option_map Rodada.id].
    rewrite bool_decide_eq_true_2 by exact Hid.
    cbn [Rodada.tempo_limite]. f_equal. lia.
  - unfold Producao.tempo_limite_de, Producao.adicionarMinutos. cbn [fst].
    rewrite rodada_de_update, H1. cbn [fmap option_fmap option_map Rodada.id].
    rewrite bool_decide_eq_true_2 by exact Hid. reflexivity.
Qed.

Lemma extensions_compose_witness :
  Producao.tempo_limite_de "r2"
    (Producao.adicionarMinutos (Some Exemplos.rodadaAtiva) false 5
       (Producao.adicionarMinutos (Some Exemplos.rodadaAtiva) false 1
          Exemplos.banco).1).1
  = Some 600.
Proof.
  destruct (extensions_compose Exemplos.rodadaAtiva Exemplos.rodadaAtiva 1 5
              Exemplos.banco eq_refl) as [_ H].
  exact H.
Defined.

(** ** Names of teams *)

Lemma mesma_chave_mesma_equipe (equipes : list Equipe.t) (x y : Equipe.t) :
  NoDup (Equipe.id <$> equipes) →
  x ∈ equipes → y ∈ equipes → Equipe.id x = Equipe.id y → x = y.
Proof.
  induction equipes as [|e es IH]; intros Hnd Hx Hy Hid.
  - by apply not_elem_of_nil in Hx.
  - rewrite fmap_cons in Hnd. apply NoDup_cons in Hnd as [Hnot Hnd].
    apply elem_of_cons in Hx as [->|Hx], Hy as [->|Hy].
    + reflexivity.
    + exfalso. apply Hnot. rewrite Hid. apply list_elem_of_fmap. eauto.
    + exfalso. apply Hnot. rewrite <- Hid. apply list_elem_of_fmap. eauto.
    + apply IH; assumption.
Qed.

(** X25. Looking a team's name up by key. With distinct team keys,
    [getEquipeNome] returns the name of every listed team for its key; for
    a key that no listed team has, it returns the fallback text. *)
Theorem team_name_lookup
    (equipes : list Equipe.t) (Hnd : NoDup (Equipe.id <$> equipes)) :
  (∀ e, e ∈ equipes → Painel.getEquipeNome equipes (Equipe.id e) = Equipe.nome e)
  ∧ (∀ k, k ∉ Equipe.id <$> equipes →
          Painel.getEquipeNome equipes k = "Equipe não encontrada").
Proof.
  split.
  - intros e He. unfold Painel.getEquipeNome.
    destruct (list_find_elem_of (λ x, Equipe.id x = Equipe.id e) equipes e He eq_refl)
      as [[i x] Hf].
    rewrite Hf. apply list_find_Some in Hf as (Hx & Hid & _). f_equal.
    apply (mesma_chave_mesma_equipe equipes); try assumption.
    eapply list_elem_of_lookup_2, Hx.
  - intros k Hk. unfold Painel.getEquipeNome.
    destruct (list_find _ equipes) as [[i x]|] eqn:Hf; [|reflexivity].
    apply list_find_Some in Hf as (Hx & Hid & _). exfalso. apply Hk.
    apply list_elem_of_fmap. exists x. split; [auto|]. eapply list_elem_of_lookup_2, Hx.
Qed.

Lemma team_name_lookup_witness :
  Painel.getEquipeNome (Banco.equipes Exemplos.banco) "e2" = "Beta".
Proof.
  assert (NoDup (Equipe.id <$> Banco.equipes Exemplos.banco)) as Hnd
    by (apply (bool_decide_unpack _); vm_compute; exact I).
  destruct (team_name_lookup _ Hnd) as [H _].
  apply (H Exemplos.equipeB). right. left.
Defined.
